(** * Balance computation of the group expense dashboard

    A shallow embedding of [calculateBalances] (the closure of
    [GroupDashboard]), of the dashboard code that renders its result, and of
    the data-access call [getGroupById], together with the properties of the
    ledger specification that concern them.

    A JavaScript number is modelled by the rational it denotes, or [NaN].
    [+] and [-] round their exact result to a double-precision significand
    of 53 bits, to nearest with ties to even, as the code does; the exponent
    range of doubles (overflow to an infinity, subnormals) and the sign of
    zero are not modelled.  Exact sums and differences are kept apart from
    them and used only to say what balances add up to.  Plain objects used
    as dictionaries are finite maps from strings; their keys are identifiers
    of database rows, never names of properties that objects inherit. *)

From Stdlib Require Import QArith Qpower Qabs Qcanon Qcabs Lqa.
From stdpp Require Import gmap strings list fin_maps.

Local Open Scope Qc_scope.

(** ** Numbers *)

Inductive number : Type :=
  | Num (q : Qc)
  | NaN.

Global Instance number_eq_dec : EqDecision number.
Proof. solve_decision. Defined.

(** A decimal literal, as it is written in the ledger: [dec 33.34]. *)
Definition dec (q : Q) : Qc := Q2Qc q.

Definition zero : number := Num 0.
Arguments zero : simpl never.

(** *** Rounding to a double *)

(** The integer nearest to a rational, the even one of two at equal
    distance. *)
Definition round_half_even (x : Q) : Z :=
  let n := Qnum x in
  let d := Zpos (Qden x) in
  let q := (n / d)%Z in
  match (2 * (n mod d) ?= d)%Z with
  | Lt => q
  | Gt => (q + 1)%Z
  | Eq => if Z.even q then q else (q + 1)%Z
  end.

(** The largest [k] with [2 ^ k <= x], for a positive [x]. *)
Definition binade (x : Q) : Z :=
  let k := (Z.log2 (Qnum x) - Z.log2 (Zpos (Qden x)))%Z in
  if Qle_bool (2 ^ k)%Q x then k else (k - 1)%Z.

(** A positive rational rounded to 53 significant bits. *)
Definition round_to_53 (x : Q) : Q :=
  let e := (binade x - 52)%Z in
  (inject_Z (round_half_even (x / 2 ^ e)) * 2 ^ e)%Q.

Definition round64 (q : Qc) : Qc :=
  match Qnum q with
  | Z0 => q
  | Zpos _ => Q2Qc (round_to_53 q)
  | Zneg _ => - Q2Qc (round_to_53 (Qopp q))
  end.


(** The double that a decimal literal of the program or of a JSON document
    denotes: [double 0.1] is the number that [0.1] is read as. *)
Definition double (q : Q) : Qc := round64 (Q2Qc q).

(** [x + y] and [x - y] as the code computes them: the exact result rounded
    to a double, [NaN] absorbing.  With 0 the result is the other operand,
    as it is for doubles. *)
Definition add (x y : number) : number :=
  match x, y with
  | Num a, Num b =>
      Num (if bool_decide (a = 0) then b
           else if bool_decide (b = 0) then a
           else round64 (a + b))
  | _, _ => NaN
  end.

Definition sub (x y : number) : number :=
  match x, y with
  | Num a, Num b =>
      Num (if bool_decide (b = 0) then a
           else if bool_decide (a = 0) then - b
           else round64 (a - b))
  | _, _ => NaN
  end.

(** The exact sum and difference of two numbers. *)
Definition plus (x y : number) : number :=
  match x, y with
  | Num a, Num b => Num (a + b)
  | _, _ => NaN
  end.


(** [x === y]: [NaN] is not equal to itself. *)
Definition strict_equals (x y : number) : bool :=
  match x, y with
  | Num a, Num b => bool_decide (a = b)
  | _, _ => false
  end.

(** [x < y], false when one of them is [NaN], and [Math.abs(x)]. *)
Definition less_than (x y : number) : bool :=
  match x, y with
  | Num a, Num b => bool_decide (a < b)
  | _, _ => false
  end.

Definition abs (x : number) : number :=
  match x with
  | Num a => Num (Qcabs a)
  | NaN => NaN
  end.

(** [Math.abs(x) <= r], false when [x] is [NaN]. *)
Definition abs_le (x : number) (r : Qc) : Prop :=
  match x with
  | Num a => Qcabs a ≤ r
  | NaN => False
  end.

(** Reading a property that may be missing gives [undefined], here [None];
    arithmetic converts [undefined] to [NaN]. *)
Definition ToNumber (v : option number) : number := default NaN v.

(** [v || 0] on a value read from a dictionary of numbers: [undefined],
    [NaN] and [0] are falsy. *)
Definition or_zero (v : option number) : number :=
  match v with
  | Some (Num q) => if bool_decide (q = 0) then zero else Num q
  | Some NaN => zero
  | None => zero
  end.

(** Truthiness of a [string | null]: [null] and the empty string are falsy. *)
Definition truthy (s : option string) : option string :=
  match s with
  | Some k => if bool_decide (k = "") then None else Some k
  | None => None
  end.


(** ** Rows of the store (types of the generated database schema) *)

Inductive split_type : Type := equal | by_amount | by_weight.

Record Participant : Type := {
  p_created_at : string;
  p_group_id : option string;
  p_id : string;
  p_name : option string
}.

Record ExpenseSplit : Type := {
  s_amount : number;
  s_created_at : string;
  s_custom_amount : option number;
  s_expense_id : option string;
  s_id : string;
  s_participant_id : option string;
  s_weight : option number
}.

(** [ExpenseWithSplits]: a row of [expenses] with its [expense_splits]. *)
Record ExpenseWithSplits : Type := {
  e_amount : number;
  e_category : option string;
  e_created_at : option string;
  e_description : option string;
  e_expense_type : option string;
  e_group_id : option string;
  e_id : string;
  e_paid_by : string;
  e_split_type : option split_type;
  expense_splits : list ExpenseSplit
}.

Record Settlement : Type := {
  st_amount : number;
  st_created_at : string;
  st_description : option string;
  st_from_participant_id : string;
  st_group_id : string;
  st_id : string;
  st_settlement_date : string;
  st_to_participant_id : string
}.

(** The row selected by [getGroupById]: the group with its participants. *)
Record Group : Type := {
  g_id : string;
  g_name : string;
  participants : option (list Participant);
  g_description : option string;
  g_created_at : string
}.

(** ** [calculateBalances] *)

(** [xs.forEach(f)] where [f] updates a local object: a left fold. *)
Definition forEach {A S : Type} (f : A → S → S) (xs : list A) (s : S) : S :=
  foldl (λ acc x, f x acc) s xs.

(** [balances[k] += x] and [balances[k] -= x]. *)
Definition add_assign (k : string) (x : number)
    (balances : gmap string number) : gmap string number :=
  <[k := add (ToNumber (balances !! k)) x]> balances.

Definition sub_assign (k : string) (x : number)
    (balances : gmap string number) : gmap string number :=
  <[k := sub (ToNumber (balances !! k)) x]> balances.

(** [group.participants?.forEach((p) => { balances[p.id] = 0; })] *)
Definition init_balances (ps : option (list Participant))
    (balances : gmap string number) : gmap string number :=
  match ps with
  | Some ps => forEach (λ p b, <[p_id p := zero]> b) ps balances
  | None => balances
  end.

(** The callback of [expense.expense_splits.forEach]. *)
Definition debit_split (split : ExpenseSplit)
    (balances : gmap string number) : gmap string number :=
  match truthy (s_participant_id split) with
  | Some k => sub_assign k (s_amount split) balances
  | None => balances
  end.

(** The callback of [expenses.forEach]. *)
Definition apply_expense (expense : ExpenseWithSplits)
    (balances : gmap string number) : gmap string number :=
  let balances := add_assign (e_paid_by expense) (e_amount expense) balances in
  forEach debit_split (expense_splits expense) balances.

Definition calculateBalances (group : option Group)
    (expenses : list ExpenseWithSplits) : gmap string number :=
  let balances : gmap string number := ∅ in
  match group with
  | None => balances
  | Some group =>
      let balances := init_balances (participants group) balances in
      forEach apply_expense expenses balances
  end.

(** Rows for the sample ledgers. *)
Definition mkParticipant (id : string) : Participant :=
  {| p_created_at := "2025-01-01"; p_group_id := Some "g1"; p_id := id;
     p_name := Some id |}.

Definition mkSplit (pid : string) (a : number) : ExpenseSplit :=
  {| s_amount := a; s_created_at := "2025-01-01"; s_custom_amount := None;
     s_expense_id := Some "e1"; s_id := "s" +:+ pid;
     s_participant_id := Some pid; s_weight := None |}.

Definition mkExpense (kind : option string) (payer : string) (a : number)
    (splits : list ExpenseSplit) : ExpenseWithSplits :=
  {| e_amount := a; e_category := None; e_created_at := None;
     e_description := None; e_expense_type := kind; e_group_id := Some "g1";
     e_id := "e1"; e_paid_by := payer; e_split_type := Some equal;
     expense_splits := splits |}.

Definition mkGroup (ps : list Participant) : Group :=
  {| g_id := "g1"; g_name := "trip"; participants := Some ps;
     g_description := None; g_created_at := "2025-01-01" |}.

Definition ABC : Group :=
  mkGroup [mkParticipant "A"; mkParticipant "B"; mkParticipant "C"].

(** ** Sums read off the ledger *)

(** A sum as the code would compute it, and the exact sum. *)
Definition sum_numbers (xs : list number) : number := foldr add zero xs.

Definition sum_exact (xs : list number) : number := foldr plus zero xs.


(** The amounts of the splits of [k] in a list of splits. *)
Definition own_splits (k : string) (splits : list ExpenseSplit) : list number :=
  s_amount <$> filter (λ s, truthy (s_participant_id s) = Some k) splits.


(** The kinds of entry: a missing [expense_type] is an expense. *)
Definition is_expense_or_income (e : ExpenseWithSplits) : Prop :=
  e_expense_type e = None ∨ e_expense_type e = Some "expense"
  ∨ e_expense_type e = Some "income".

Definition is_transfer (e : ExpenseWithSplits) : Prop :=
  e_expense_type e = Some "transfer".

(** The participants of a group, [[]] when the property is missing. *)
Definition members (g : Group) : list Participant :=
  default [] (participants g).

(** The identifiers of the participants of a group. *)
Definition member_ids (g : Group) : list string := p_id <$> members g.

(** *** What the ledger does to one balance *)

(** A credit or a debit of a balance. *)
Inductive movement : Type :=
  | Credit (x : number)
  | Debit (x : number).

(** The balance after a movement, as the code computes it and exactly. *)
Definition settle (v : number) (m : movement) : number :=
  match m with
  | Credit x => add v x
  | Debit x => sub v x
  end.


(** The movements of the balance of [k] that an entry makes, in the order
    in which the code makes them: the credit of the amount when [k] paid,
    then the debits of the splits of [k], in the order of the splits. *)
Definition entry_movements (k : string) (e : ExpenseWithSplits)
    : list movement :=
  (if decide (e_paid_by e = k) then [Credit (e_amount e)] else [])
  ++ (Debit <$> own_splits k (expense_splits e)).

(** The movements of the balance of [k] in a ledger, in ledger order. *)
Definition movements (k : string) (expenses : list ExpenseWithSplits)
    : list movement :=
  expenses ≫= entry_movements k.

(** The movements applied to a value read from [balances], which may be
    missing. *)
Definition settle_all (v : option number) (ms : list movement)
    : option number :=
  foldl (λ v m, Some (settle (ToNumber v) m)) v ms.


(** *** The sum of the balances *)

(** The exact sum of all the balances of a result, and the same sum taken
    participant by participant. *)
Definition sum_balances (balances : gmap string number) : number :=
  map_fold (λ _ v acc, plus acc v) zero balances.



(** Every entry of [b] belongs to an identifier of [ks]. *)
Definition only (ks : list string) (b : gmap string number) : Prop :=
  ∀ k, is_Some (b !! k) → k ∈ ks.


(** The exact sum of the splits of an entry, and what the entry leaves over:
    its amount less the splits that are debited. *)
Definition splits_sum (e : ExpenseWithSplits) : number :=
  sum_exact (s_amount <$> expense_splits e).


(** The participant of the split, when it has one, belongs to the group; the
    payer and the participants of the splits belong to the group. *)
Definition split_in_group (g : Group) (s : ExpenseSplit) : Prop :=
  from_option (λ k, k ∈ member_ids g) True (truthy (s_participant_id s)).

Definition refs_in_group (g : Group) (e : ExpenseWithSplits) : Prop :=
  e_paid_by e ∈ member_ids g ∧ Forall (split_in_group g) (expense_splits e).

(** Every split of the entry has a participant. *)
Definition splits_have_participant (e : ExpenseWithSplits) : Prop :=
  Forall (λ s, is_Some (truthy (s_participant_id s))) (expense_splits e).

(** The splits of the entry sum to its amount, exactly. *)
Definition splits_match_amount (e : ExpenseWithSplits) : Prop :=
  strict_equals (splits_sum e) (e_amount e) = true.

(** The splits of the entry sum to its amount when the code adds them up. *)
Definition splits_add_up (e : ExpenseWithSplits) : Prop :=
  strict_equals
    (foldl add zero (s_amount <$> expense_splits e)) (e_amount e) = true.

Definition cent : Qc := dec 0.01.














(** [k] is neither the payer of [e] nor the participant of one of its
    splits. *)
Definition unreferenced_by (k : string) (e : ExpenseWithSplits) : Prop :=
  e_paid_by e ≠ k ∧
  Forall (λ s, s_participant_id s ≠ Some k) (expense_splits e).

Global Instance Participant_eq_dec : EqDecision Participant.
Proof. solve_decision. Defined.

Global Instance split_type_eq_dec : EqDecision split_type.
Proof. solve_decision. Defined.

Global Instance ExpenseSplit_eq_dec : EqDecision ExpenseSplit.
Proof. solve_decision. Defined.

Global Instance ExpenseWithSplits_eq_dec : EqDecision ExpenseWithSplits.
Proof. solve_decision. Defined.

Global Instance movement_eq_dec : EqDecision movement.
Proof. solve_decision. Defined.

Global Instance is_expense_or_income_dec e : Decision (is_expense_or_income e).
Proof. unfold is_expense_or_income. apply _. Defined.

Global Instance is_transfer_dec e : Decision (is_transfer e).
Proof. unfold is_transfer. apply _. Defined.

Global Instance unreferenced_by_dec k e : Decision (unreferenced_by k e).
Proof. unfold unreferenced_by. apply _. Defined.

Global Instance split_in_group_dec g s : Decision (split_in_group g s).
Proof.
  unfold split_in_group.
  destruct (truthy (s_participant_id s)); simpl; apply _.
Defined.

Global Instance refs_in_group_dec g e : Decision (refs_in_group g e).
Proof. unfold refs_in_group. apply _. Defined.

Global Instance splits_have_participant_dec e :
  Decision (splits_have_participant e).
Proof. unfold splits_have_participant. apply _. Defined.

Global Instance splits_add_up_dec e : Decision (splits_add_up e).
Proof. unfold splits_add_up. apply _. Defined.

Global Instance splits_match_amount_dec e : Decision (splits_match_amount e).
Proof. unfold splits_match_amount. apply _. Defined.

Global Instance abs_le_dec x r : Decision (abs_le x r).
Proof. destruct x; simpl; apply _. Defined.

(** Instances are found by the names of these predicates. *)
Global Typeclasses Opaque splits_have_participant splits_match_amount
  splits_add_up.

(** ** What the dashboard does with the result *)

(** The error taxonomy of the specification. *)
Inductive error : Type :=
  | ValidationError
  | SplitMismatchError
  | ReferenceError
  | NotFoundError
  | PersistenceError.

(** How a call ends: with a value, or with a raised error. *)
Inductive completion (A : Type) : Type :=
  | Returns (v : A)
  | Throws (err : error).
Arguments Returns {A} v.
Arguments Throws {A} err.

(** A call of [calculateBalances] as its caller sees it.  The body has no
    [throw]; its callbacks only read and assign properties of [balances]. *)
Definition calculateBalances_call (group : option Group)
    (expenses : list ExpenseWithSplits) : completion (gmap string number) :=
  Returns (calculateBalances group expenses).

(** [const balance = balances[participant.id] || 0] *)
Definition displayed_balance (balances : gmap string number)
    (participant : Participant) : number :=
  or_zero (balances !! p_id participant).

(** The text shown next to the participant, without the formatting of
    [toFixed(2)]. *)
Inductive label : Type :=
  | Settled
  | Gets (x : number)
  | Owes (x : number).

Global Instance label_eq_dec : EqDecision label.
Proof. solve_decision. Defined.

Definition balance_label (balances : gmap string number)
    (participant : Participant) : label :=
  let balance := displayed_balance balances participant in
  let isPositive := less_than zero balance in
  let isNeutral := less_than (abs balance) (Num cent) in
  if isNeutral then Settled
  else if isPositive then Gets balance
  else Owes (abs balance).

(** The state that the closure [calculateBalances] reads. *)
Record DashboardState : Type := {
  group : option Group;
  expenses : list ExpenseWithSplits
}.

(** The ledger snapshot of the specification: the dashboard state and the
    rows of [settlements], which the dashboard does not load. *)
Record Snapshot : Type := {
  snap_state : DashboardState;
  snap_settlements : list Settlement
}.

Definition snapshot_balances (s : Snapshot) : gmap string number :=
  calculateBalances (group (snap_state s)) (expenses (snap_state s)).

(** ** The aggregation as the specification words it *)

(** A settlement as the specification words it: the amount is debited from
    the from-participant and credited to the to-participant. *)
Definition spec_apply_settlement (st : Settlement)
    (balances : gmap string number) : gmap string number :=
  add_assign (st_to_participant_id st) (st_amount st)
    (sub_assign (st_from_participant_id st) (st_amount st) balances).

Definition spec_snapshot_balances (s : Snapshot) : gmap string number :=
  forEach spec_apply_settlement (snap_settlements s) (snapshot_balances s).

(** The recipient of a stored transfer: the row has no column for it, the
    recipient is the participant of the first split. *)
Definition transfer_recipient (e : ExpenseWithSplits) : option string :=
  head (expense_splits e) ≫= λ s, truthy (s_participant_id s).

(** A transfer as the specification words it: its splits are not walked, the
    recipient is credited and the payer debited by the full amount. *)
Definition spec_apply_entry (e : ExpenseWithSplits)
    (balances : gmap string number) : gmap string number :=
  if decide (is_transfer e) then
    match transfer_recipient e with
    | Some recipient =>
        sub_assign (e_paid_by e) (e_amount e)
          (add_assign recipient (e_amount e) balances)
    | None => sub_assign (e_paid_by e) (e_amount e) balances
    end
  else apply_expense e balances.

Definition spec_calculateBalances (group : option Group)
    (expenses : list ExpenseWithSplits) : gmap string number :=
  match group with
  | None => ∅
  | Some group =>
      forEach spec_apply_entry expenses (init_balances (participants group) ∅)
  end.

(** An entry with another [expense_type]. *)
Definition with_expense_type (kind : option string) (e : ExpenseWithSplits)
    : ExpenseWithSplits :=
  {| e_amount := e_amount e; e_category := e_category e;
     e_created_at := e_created_at e; e_description := e_description e;
     e_expense_type := kind; e_group_id := e_group_id e; e_id := e_id e;
     e_paid_by := e_paid_by e; e_split_type := e_split_type e;
     expense_splits := expense_splits e |}.

(** ** The split calculator *)

Definition split_of (pid : string) (a : Qc) : ExpenseSplit :=
  {| s_amount := Num a; s_created_at := ""; s_custom_amount := None;
     s_expense_id := None; s_id := ""; s_participant_id := Some pid;
     s_weight := None |}.

(** Modelled from the spec: the exact-amount policy of the split calculator,
    whose code is not among the sources.  Each participant's split equals the
    provided custom_amount; the call fails with [SplitMismatchError] if the
    sum of the custom_amounts differs from the entry amount by more than
    0.01. *)
Definition computeSplits_exact (amount : Qc) (customs : list (string * Qc))
    : completion (list ExpenseSplit) :=
  let total := foldr Qcplus 0 (snd <$> customs) in
  if bool_decide (cent < Qcabs (total - amount))
  then Throws SplitMismatchError
  else Returns ((λ c, split_of (fst c) (snd c)) <$> customs).

(** ** [getGroupById] *)

(** A row of the table [group]. *)
Record GroupRow : Type := {
  gr_created_at : string;
  gr_description : option string;
  gr_id : string;
  gr_name : string
}.

Global Instance GroupRow_eq_dec : EqDecision GroupRow.
Proof. solve_decision. Defined.

Record Database : Type := {
  group_table : list GroupRow;
  participants_table : list Participant
}.

(** The response of the client: [{ data, error }]. *)
Record Response (A : Type) : Type := {
  data : option A;
  error_of : option error
}.
Arguments data {A} _.
Arguments error_of {A} _.

(** Modelled from the spec: the query builder of the external store, whose
    client is not among the sources.  [select] with the embedded
    [participants(...)] returns each row of [group] with the participants
    that reference it; [eq] keeps the rows with the given [id]; [single]
    answers the one row, and fails with [NotFoundError] when there is not
    exactly one. *)
Definition group_with_participants (db : Database) (r : GroupRow) : Group :=
  {| g_id := gr_id r; g_name := gr_name r;
     participants :=
       Some (filter (λ p, p_group_id p = Some (gr_id r))
               (participants_table db));
     g_description := gr_description r;
     g_created_at := gr_created_at r |}.

Definition select_with_participants (db : Database) : list Group :=
  group_with_participants db <$> group_table db.

Definition eq_id (groupId : string) (rows : list Group) : list Group :=
  filter (λ g, g_id g = groupId) rows.

Definition single {A} (rows : list A) : Response A :=
  match rows with
  | row :: [] => {| data := Some row; error_of := None |}
  | _ => {| data := None; error_of := Some NotFoundError |}
  end.

Definition getGroupById (db : Database) (groupId : string) : Response Group :=
  single (eq_id groupId (select_with_participants db)).

(** ** Sample ledgers *)

Definition pA : Participant := mkParticipant "A".
Definition pB : Participant := mkParticipant "B".
Definition pC : Participant := mkParticipant "C".

(** A pays 90 for B and C. *)
Definition dinner : ExpenseWithSplits :=
  mkExpense (Some "expense") "A" (Num (dec 90))
    [mkSplit "B" (Num (dec 45)); mkSplit "C" (Num (dec 45))].

(** B records an income of 30 split between A and B. *)
Definition refund : ExpenseWithSplits :=
  mkExpense (Some "income") "B" (Num (dec 30))
    [mkSplit "A" (Num (dec 15)); mkSplit "B" (Num (dec 15))].

(** A transfers 50 to B. *)
Definition transfer_A_to_B : ExpenseWithSplits :=
  mkExpense (Some "transfer") "A" (Num (dec 50)) [mkSplit "B" (Num (dec 50))].

(** A paid 10 to B outside the ledger. *)
Definition settlement_A_to_B : Settlement :=
  {| st_amount := Num (dec 10); st_created_at := "2025-01-02";
     st_description := None; st_from_participant_id := "A";
     st_group_id := "g1"; st_id := "st1"; st_settlement_date := "2025-01-02";
     st_to_participant_id := "B" |}.

Definition settled_snapshot : Snapshot :=
  {| snap_state := {| group := Some ABC; expenses := [] |};
     snap_settlements := [settlement_A_to_B] |}.

(** A pays 90; the split of B has lost its amount. *)
Definition corrupt_ledger : list ExpenseWithSplits :=
  [mkExpense (Some "expense") "A" (Num (dec 90))
     [mkSplit "B" NaN; mkSplit "C" (Num (dec 45))]].

(** A pays 100 for A, B and C; the splits are those that give the balances
    of the scenario: the remainder unit is on the split of C. *)
Definition hundred_remainder_on_C : ExpenseWithSplits :=
  mkExpense (Some "expense") "A" (Num (double 100))
    [mkSplit "A" (Num (double 33.33)); mkSplit "B" (Num (double 33.33));
     mkSplit "C" (Num (double 33.34))].

(** The same expense with the remainder unit on the split of B, the first
    participant after the payer. *)
Definition hundred_remainder_on_B : ExpenseWithSplits :=
  mkExpense (Some "expense") "A" (Num (double 100))
    [mkSplit "A" (Num (double 33.33)); mkSplit "B" (Num (double 33.34));
     mkSplit "C" (Num (double 33.33))].



(** A pays 0.1 for B, B pays 0.7 for A, A pays 0.1 for B. *)
Definition dimes : list ExpenseWithSplits :=
  [mkExpense (Some "expense") "A" (Num (double 0.1))
     [mkSplit "B" (Num (double 0.1))];
   mkExpense (Some "expense") "B" (Num (double 0.7))
     [mkSplit "A" (Num (double 0.7))];
   mkExpense (Some "expense") "A" (Num (double 0.1))
     [mkSplit "B" (Num (double 0.1))]].

(** A pays 0.11: 0.1 for A and 0.01 for B. *)
Definition eleven_cents : ExpenseWithSplits :=
  mkExpense (Some "expense") "A" (Num (double 0.11))
    [mkSplit "A" (Num (double 0.1)); mkSplit "B" (Num (double 0.01))].

(** C pays 12 for C alone. *)
Definition own_treat : ExpenseWithSplits :=
  mkExpense (Some "expense") "C" (Num (dec 12)) [mkSplit "C" (Num (dec 12))].

Definition sample_db : Database :=
  {| group_table :=
       [ {| gr_created_at := "2025-01-01"; gr_description := None;
            gr_id := "g1"; gr_name := "trip" |};
         {| gr_created_at := "2025-01-03"; gr_description := Some "flat";
            gr_id := "g2"; gr_name := "rent" |} ];
     participants_table :=
       [ pA; pB;
         {| p_created_at := "2025-01-03"; p_group_id := Some "g2";
            p_id := "D"; p_name := Some "D" |};
         pC ] |}.

(** ** References of an entry *)

(** The entry assigns to the key [k]: [k] is its payer, or the participant
    of one of its splits. *)
Definition references (k : string) (e : ExpenseWithSplits) : Prop :=
  e_paid_by e = k ∨
  Exists (λ s, truthy (s_participant_id s) = Some k) (expense_splits e).

Global Instance references_dec k e : Decision (references k e).
Proof. unfold references. apply _. Defined.

(** The keys that the entry assigns, the payer first. *)
Definition referenced (e : ExpenseWithSplits) : list string :=
  e_paid_by e :: omap (λ s, truthy (s_participant_id s)) (expense_splits e).

(** An amount of the entry that concerns [k] is not a number. *)
Definition corrupt_for (k : string) (e : ExpenseWithSplits) : Prop :=
  (e_paid_by e = k ∧ e_amount e = NaN) ∨
  Exists (λ s, truthy (s_participant_id s) = Some k ∧ s_amount s = NaN)
    (expense_splits e).

Global Instance corrupt_for_dec k e : Decision (corrupt_for k e).
Proof. unfold corrupt_for. apply _. Defined.

(** ** Totals of the dashboard *)


(** [e.expense_type === 'expense' || !e.expense_type] *)
Definition counts_as_expense (e : ExpenseWithSplits) : Prop :=
  e_expense_type e = Some "expense" ∨ truthy (e_expense_type e) = None.

(** [e.expense_type === 'income'] *)
Definition counts_as_income (e : ExpenseWithSplits) : Prop :=
  e_expense_type e = Some "income".

Global Instance counts_as_expense_dec e : Decision (counts_as_expense e).
Proof. unfold counts_as_expense. apply _. Defined.

Global Instance counts_as_income_dec e : Decision (counts_as_income e).
Proof. unfold counts_as_income. apply _. Defined.



(** ** Names and shares in the list of transactions *)

(** [v || 'Unknown'] on a [string | null | undefined]. *)
Definition or_unknown (v : option string) : string :=
  default "Unknown" (truthy v).

Definition getParticipantDisplayName (currentParticipant : option string)
    (group : option Group) (participantId : string) : string :=
  if bool_decide (Some participantId = currentParticipant) then "me"
  else
    or_unknown
      (((group ≫= participants)
          ≫= List.find (λ p, bool_decide (p_id p = participantId)))
         ≫= p_name).

(** [currentParticipant
      ? expense.expense_splits.find(
          (split) => split.participant_id === currentParticipant)?.amount || 0
      : 0] *)
Definition myShare (currentParticipant : option string)
    (expense : ExpenseWithSplits) : number :=
  match truthy currentParticipant with
  | Some _ =>
      or_zero
        (s_amount <$>
           List.find
             (λ split, bool_decide (s_participant_id split = currentParticipant))
             (expense_splits expense))
  | None => zero
  end.

(** The label of a displayed balance. *)
Definition label_of (balance : number) : label :=
  if less_than (abs balance) (Num cent) then Settled
  else if less_than zero balance then Gets balance
  else Owes (abs balance).

(** The label of the other side of a debt. *)
Definition mirror_label (l : label) : label :=
  match l with
  | Settled => Settled
  | Gets x => Owes x
  | Owes x => Gets x
  end.

(** ** The dialog of an entry *)

Record DialogState : Type := {
  showExpenseDialog : bool;
  editingExpense : option ExpenseWithSplits;
  dialogType : string
}.

Definition initial_dialog : DialogState :=
  {| showExpenseDialog := false; editingExpense := None;
     dialogType := "expense" |}.

Definition handleOpenDialog (type : string) (st : DialogState) : DialogState :=
  {| showExpenseDialog := true; editingExpense := None; dialogType := type |}.

(** [expense.expense_type || 'expense'] *)
Definition expense_type_or_expense (expense : ExpenseWithSplits) : string :=
  default "expense" (truthy (e_expense_type expense)).

Definition handleEditExpense (expense : ExpenseWithSplits) (st : DialogState)
    : DialogState :=
  {| showExpenseDialog := true; editingExpense := Some expense;
     dialogType := expense_type_or_expense expense |}.

(** [onOpenChange] of the dialog. *)
Definition onOpenChange (open : bool) (st : DialogState) : DialogState :=
  {| showExpenseDialog := open;
     editingExpense := if open then editingExpense st else None;
     dialogType := dialogType st |}.

(** What [handleSaveExpense] asks of the store. *)
Inductive save_request : Type :=
  | UpdateExpense (id : string)
  | CreateExpense.

(** [handleSaveExpense]: nothing without a group; otherwise the entry being
    edited is updated, or a new one created; when the store call resolves
    the dialog is closed, when it rejects the state stays. [persist] is the
    answer of the store. *)
Definition handleSaveExpense (groupId : option string) (group : option Group)
    (persist : save_request → bool) (st : DialogState) : DialogState :=
  match truthy groupId, group with
  | Some _, Some _ =>
      let request :=
        match editingExpense st with
        | Some editing => UpdateExpense (e_id editing)
        | None => CreateExpense
        end in
      if persist request
      then {| showExpenseDialog := false; editingExpense := None;
              dialogType := dialogType st |}
      else st
  | _, _ => st
  end.

(** One event of the dialog. *)
Inductive dialog_step : DialogState → DialogState → Prop :=
  | step_open type st : dialog_step st (handleOpenDialog type st)
  | step_edit expense st : dialog_step st (handleEditExpense expense st)
  | step_open_change open st : dialog_step st (onOpenChange open st)
  | step_save groupId group persist st :
      dialog_step st (handleSaveExpense groupId group persist st).

(** ** Loading the page *)

Record Toast : Type := {
  title : string;
  toast_description : string;
  variant : option string
}.

(** The response of [getGroupById], as [fetchGroupData] reads it. *)
Record GroupResponse : Type := {
  response_data : option Group;
  response_error_message : option string
}.

Record Page : Type := {
  page_state : DashboardState;
  loading : bool;
  showParticipantSelection : bool;
  toasts : list Toast
}.

(** The page when the component mounts. *)
Definition initial_page : Page :=
  {| page_state := {| group := None; expenses := [] |};
     loading := true; showParticipantSelection := false; toasts := [] |}.

(** [fetchGroupData], given how the store call ended.  [groupId] and
    [currentParticipant] are the values the callback was created with. *)
Definition fetchGroupData (groupId : option string)
    (currentParticipant : option string)
    (outcome : completion GroupResponse) (pg : Page) : Page :=
  match truthy groupId with
  | None => pg
  | Some _ =>
      match outcome with
      | Throws _ => pg
      | Returns response =>
          match response_error_message response, response_data response with
          | None, Some data =>
              {| page_state :=
                   {| group := Some data;
                      expenses := expenses (page_state pg) |};
                 loading := loading pg;
                 showParticipantSelection :=
                   match truthy currentParticipant, participants data with
                   | None, Some (_ :: _) => true
                   | _, _ => showParticipantSelection pg
                   end;
                 toasts := toasts pg |}
          | message, _ =>
              {| page_state := page_state pg;
                 loading := loading pg;
                 showParticipantSelection := showParticipantSelection pg;
                 toasts :=
                   toasts pg ++
                   [ {| title := "Error loading group";
                        toast_description :=
                          default "Group not found." (truthy message);
                        variant := Some "destructive" |} ] |}
          end
      end
  end.

(** [fetchExpenses], given how the store call ended. *)
Definition fetchExpenses (groupId : option string)
    (outcome : completion (list ExpenseWithSplits)) (pg : Page) : Page :=
  match truthy groupId with
  | None => pg
  | Some _ =>
      match outcome with
      | Returns data =>
          {| page_state :=
               {| group := group (page_state pg); expenses := data |};
             loading := false;
             showParticipantSelection := showParticipantSelection pg;
             toasts := toasts pg |}
      | Throws _ =>
          {| page_state := page_state pg;
             loading := false;
             showParticipantSelection := showParticipantSelection pg;
             toasts :=
               toasts pg ++
               [ {| title := "Error loading expenses";
                    toast_description :=
                      "Could not load expenses for this group.";
                    variant := Some "destructive" |} ] |}
      end
  end.

(** What the component returns. *)
Inductive view : Type :=
  | LoadingScreen
  | GroupNotFound
  | DashboardView.

Definition render_view (pg : Page) : view :=
  if loading pg then LoadingScreen
  else match group (page_state pg) with
       | None => GroupNotFound
       | Some _ => DashboardView
       end.

(** ** The participant kept for the session *)

(** The key [`participant_${groupId}`] of the session storage. *)
Definition participant_key (groupId : string) : string :=
  "participant_" +:+ groupId.

(** The effect that restores the participant when the page opens. *)
Definition restoreParticipant (groupId : option string)
    (sessionStorage : gmap string string) (current : option string)
    : option string :=
  match truthy groupId with
  | Some groupId =>
      match truthy (sessionStorage !! participant_key groupId) with
      | Some storedParticipant => Some storedParticipant
      | None => current
      end
  | None => current
  end.

(** [handleParticipantSelect]: the storage and the current participant after
    the call; the group view that it records afterwards changes neither,
    whether recording succeeds or fails. *)
Definition handleParticipantSelect (groupId : option string)
    (participantId : string)
    (session : gmap string string * option string)
    : gmap string string * option string :=
  match truthy groupId with
  | None => session
  | Some groupId =>
      (<[participant_key groupId := participantId]> (fst session),
       Some participantId)
  end.

(** The group of A, B and C with its participants listed in another order,
    one of them twice. *)
Definition ABC_reordered : Group :=
  mkGroup [mkParticipant "C"; mkParticipant "A"; mkParticipant "B";
           mkParticipant "A"].

(** Z, who is not in the group, pays 20 for A. *)
Definition outsider_pays : ExpenseWithSplits :=
  mkExpense (Some "expense") "Z" (Num (dec 20)) [mkSplit "A" (Num (dec 20))].

(** The group of A and B; A pays a lunch of 30 for both. *)
Definition AB : Group := mkGroup [pA; pB].

Definition lunch : ExpenseWithSplits :=
  mkExpense (Some "expense") "A" (Num (dec 30))
    [mkSplit "A" (Num (dec 15)); mkSplit "B" (Num (dec 15))].

(** * Properties *)

(** ** Arithmetic of numbers *)


Lemma add_zero_l x : add zero x = x.
Proof. by destruct x. Qed.

Lemma add_zero_r x : add x zero = x.
Proof.
  destruct x as [a|]; [|done]. unfold add, zero. f_equal.
  case_bool_decide; [by subst|done].
Qed.

Lemma sub_zero_r x : sub x zero = x.
Proof. by destruct x. Qed.

Lemma add_NaN_r x : add x NaN = NaN.
Proof. by destruct x. Qed.

Lemma sub_NaN_r x : sub x NaN = NaN.
Proof. by destruct x. Qed.






(** *** Rounding *)

Section rounding.
Local Open Scope Q_scope.









End rounding.









Lemma settle_NaN m : settle NaN m = NaN.
Proof. by destruct m. Qed.

Arguments add : simpl never.
Arguments sub : simpl never.
Arguments plus : simpl never.
Arguments minus : simpl never.

Lemma sum_numbers_nil : sum_numbers [] = zero.
Proof. reflexivity. Qed.

Lemma sum_numbers_cons x xs : sum_numbers (x :: xs) = add x (sum_numbers xs).
Proof. reflexivity. Qed.




(** ** Lookups after each statement *)

Lemma add_assign_lookup k x b :
  add_assign k x b !! k = Some (add (ToNumber (b !! k)) x).
Proof. unfold add_assign. by rewrite lookup_insert_eq. Qed.

Lemma add_assign_lookup_ne k k' x b :
  k ≠ k' → add_assign k x b !! k' = b !! k'.
Proof. intros. unfold add_assign. by rewrite lookup_insert_ne. Qed.

Lemma sub_assign_lookup k x b :
  sub_assign k x b !! k = Some (sub (ToNumber (b !! k)) x).
Proof. unfold sub_assign. by rewrite lookup_insert_eq. Qed.

Lemma sub_assign_lookup_ne k k' x b :
  k ≠ k' → sub_assign k x b !! k' = b !! k'.
Proof. intros. unfold sub_assign. by rewrite lookup_insert_ne. Qed.

Lemma forEach_cons {A S} (f : A → S → S) x xs s :
  forEach f (x :: xs) s = forEach f xs (f x s).
Proof. reflexivity. Qed.

Lemma forEach_nil {A S} (f : A → S → S) s : forEach f [] s = s.
Proof. reflexivity. Qed.

Lemma own_splits_cons k split splits :
  own_splits k (split :: splits) = own_splits k [split] ++ own_splits k splits.
Proof.
  unfold own_splits. rewrite !filter_cons, filter_nil.
  by destruct (decide _).
Qed.

Lemma own_splits_single k split :
  own_splits k [split] =
    if decide (truthy (s_participant_id split) = Some k)
    then [s_amount split]%list else [].
Proof.
  unfold own_splits. rewrite filter_cons, filter_nil.
  by destruct (decide _).
Qed.




Lemma filter_none {A} (P : A → Prop) `{!∀ x, Decision (P x)} (l : list A) :
  Forall (λ x, ¬ P x) l → filter P l = [].
Proof.
  induction 1 as [|x l Hx _ IH]; [done|].
  by rewrite filter_cons, decide_False, IH.
Qed.

Lemma truthy_Some s k : truthy s = Some k → s = Some k.
Proof.
  destruct s as [k'|]; simpl; [|done].
  by case_bool_decide.
Qed.

Lemma own_splits_none k splits :
  ¬ Exists (λ s, truthy (s_participant_id s) = Some k) splits →
  own_splits k splits = [].
Proof.
  intros Hno. unfold own_splits. rewrite filter_none; [done|].
  by apply not_Exists_Forall; [apply _|].
Qed.

(** ** The movements of one balance *)

Lemma settle_all_nil v : settle_all v [] = v.
Proof. reflexivity. Qed.

Lemma settle_all_cons v m ms :
  settle_all v (m :: ms) = settle_all (Some (settle (ToNumber v) m)) ms.
Proof. reflexivity. Qed.

Lemma settle_all_app v ms ms' :
  settle_all v (ms ++ ms') = settle_all (settle_all v ms) ms'.
Proof. apply foldl_app. Qed.

Lemma settle_all_Some v ms : settle_all (Some v) ms = Some (foldl settle v ms).
Proof.
  revert v. induction ms as [|m ms IH]; intros v; [done|].
  rewrite settle_all_cons. apply IH.
Qed.

Lemma foldl_settle_NaN ms : foldl settle NaN ms = NaN.
Proof.
  induction ms as [|m ms IH]; [done|]. simpl. by rewrite settle_NaN.
Qed.

Lemma settle_all_None m ms : settle_all None (m :: ms) = Some NaN.
Proof.
  rewrite settle_all_cons, settle_all_Some. simpl.
  by rewrite settle_NaN, foldl_settle_NaN.
Qed.

Lemma settle_all_is_Some v m ms : is_Some (settle_all v (m :: ms)).
Proof. rewrite settle_all_cons, settle_all_Some. by eexists. Qed.


Lemma movements_cons k e es :
  movements k (e :: es) = entry_movements k e ++ movements k es.
Proof. reflexivity. Qed.

Lemma movements_app k es es' :
  movements k (es ++ es') = movements k es ++ movements k es'.
Proof. unfold movements. apply bind_app. Qed.

(** What the debit of one split does to any key. *)
Lemma debit_split_settle split b k :
  debit_split split b !! k =
    settle_all (b !! k) (Debit <$> own_splits k [split]).
Proof.
  rewrite own_splits_single. unfold debit_split.
  destruct (truthy (s_participant_id split)) as [k'|] eqn:Hs.
  - destruct (decide (k' = k)) as [->|Hne].
    + by rewrite decide_True, sub_assign_lookup.
    + rewrite decide_False by congruence. by apply sub_assign_lookup_ne.
  - by rewrite decide_False.
Qed.

Lemma forEach_debit_settle splits : ∀ b k,
  forEach debit_split splits b !! k =
    settle_all (b !! k) (Debit <$> own_splits k splits).
Proof.
  induction splits as [|split splits IH]; intros b k; [done|].
  rewrite forEach_cons, IH, debit_split_settle.
  by rewrite (own_splits_cons k split splits), fmap_app, settle_all_app.
Qed.

(** What one entry does to any key. *)
Lemma apply_expense_settle e b k :
  apply_expense e b !! k = settle_all (b !! k) (entry_movements k e).
Proof.
  unfold apply_expense, entry_movements.
  rewrite forEach_debit_settle, settle_all_app. f_equal.
  destruct (decide (e_paid_by e = k)) as [->|Hne].
  - by rewrite add_assign_lookup.
  - by rewrite add_assign_lookup_ne.
Qed.

(** What the whole ledger does to any key. *)
Lemma forEach_expenses_settle es : ∀ b k,
  forEach apply_expense es b !! k = settle_all (b !! k) (movements k es).
Proof.
  induction es as [|e es IH]; intros b k; [done|].
  by rewrite forEach_cons, IH, apply_expense_settle, movements_cons,
    settle_all_app.
Qed.

Lemma entry_movements_references k e :
  entry_movements k e ≠ [] ↔ references k e.
Proof.
  unfold entry_movements, references. split.
  - intros Hne. destruct (decide (e_paid_by e = k)) as [?|Hp]; [by left|].
    right. apply dec_stable. intros Hno. apply Hne.
    by rewrite (own_splits_none _ _ Hno).
  - intros [Hp|Hs].
    + by rewrite decide_True.
    + apply Exists_exists in Hs as (s & Hin & Hs).
      intros Happ. apply app_eq_nil in Happ as [_ Hnil].
      apply fmap_nil_inv in Hnil.
      assert (s_amount s ∈ own_splits k (expense_splits e)) as Hel.
      { apply list_elem_of_fmap_2. by apply list_elem_of_filter. }
      rewrite Hnil in Hel. by apply elem_of_nil in Hel.
Qed.

Lemma entry_movements_unreferenced k e :
  ¬ references k e → entry_movements k e = [].
Proof.
  intros Hno. destruct (entry_movements k e) as [|m ms] eqn:Hm; [done|].
  destruct Hno. apply entry_movements_references. by rewrite Hm.
Qed.

Lemma movements_references k es :
  movements k es ≠ [] ↔ Exists (references k) es.
Proof.
  induction es as [|e es IH].
  - split; [done|by intros ?%Exists_nil].
  - rewrite movements_cons, Exists_cons, <- IH, <- entry_movements_references.
    split.
    + intros Hne. destruct (entry_movements k e); [by right|by left].
    + intros [Hne|Hne] [? ?]%app_eq_nil; by apply Hne.
Qed.

Lemma movements_unreferenced k es :
  ¬ Exists (references k) es → movements k es = [].
Proof.
  intros Hno. destruct (movements k es) as [|m ms] eqn:Hm; [done|].
  destruct Hno. apply movements_references. by rewrite Hm.
Qed.

(** ** Initialisation *)

Lemma init_keeps_zero ps : ∀ (b : gmap string number) k,
  b !! k = Some zero →
  forEach (λ p b, <[p_id p := zero]> b) ps b !! k = Some zero.
Proof.
  induction ps as [|p ps IH]; intros b k Hk; [done|].
  rewrite forEach_cons. apply IH.
  destruct (decide (p_id p = k)) as [->|Hne].
  - by rewrite lookup_insert_eq.
  - by rewrite lookup_insert_ne.
Qed.

Lemma init_balances_lookup g p b :
  p ∈ members g → init_balances (participants g) b !! p_id p = Some zero.
Proof.
  unfold members, init_balances.
  destruct (participants g) as [ps|]; simpl; [|by intros ?%elem_of_nil].
  revert b. induction ps as [|q ps IH]; intros b Hp; [by apply elem_of_nil in Hp|].
  rewrite forEach_cons. apply elem_of_cons in Hp as [->|Hp].
  - apply init_keeps_zero. by rewrite lookup_insert_eq.
  - by apply IH.
Qed.

Lemma only_insert ks k v b : k ∈ ks → only ks b → only ks (<[k:=v]> b).
Proof.
  intros Hk H k'. destruct (decide (k = k')) as [->|?]; [done|].
  rewrite lookup_insert_ne by done. apply H.
Qed.

Lemma init_balances_only g : only (member_ids g) (init_balances (participants g) ∅).
Proof.
  unfold member_ids, members, init_balances.
  destruct (participants g) as [ps|]; simpl;
    [|by intros k [? Hk]; rewrite lookup_empty in Hk].
  assert (∀ qs (b : gmap string number), qs ⊆ ps → only (p_id <$> ps) b →
    only (p_id <$> ps) (forEach (λ p b, <[p_id p := zero]> b) qs b)) as H.
  { induction qs as [|q qs IH]; intros b Hqs Hb; [done|].
    rewrite forEach_cons. apply IH; [set_solver|].
    apply only_insert; [|done]. apply list_elem_of_fmap. exists q. set_solver. }
  apply H; [done|]. intros k [? Hk]. by rewrite lookup_empty in Hk.
Qed.

Lemma init_balances_lookup_any g k :
  init_balances (participants g) ∅ !! k =
    if decide (k ∈ member_ids g) then Some zero else None.
Proof.
  destruct (decide (k ∈ member_ids g)) as [Hk|Hk].
  - apply list_elem_of_fmap in Hk as (p & -> & Hp).
    by apply init_balances_lookup.
  - apply eq_None_not_Some. intros Hsome.
    by apply Hk, (init_balances_only g).
Qed.

(** The value of any key of the result. *)
Lemma calculateBalances_settle g es k :
  calculateBalances (Some g) es !! k =
    settle_all (if decide (k ∈ member_ids g) then Some zero else None)
      (movements k es).
Proof.
  unfold calculateBalances.
  by rewrite forEach_expenses_settle, init_balances_lookup_any.
Qed.

Lemma calculateBalances_member g es p :
  p ∈ members g →
  calculateBalances (Some g) es !! p_id p =
    Some (foldl settle zero (movements (p_id p) es)).
Proof.
  intros Hp. rewrite calculateBalances_settle, decide_True.
  - apply settle_all_Some.
  - by apply list_elem_of_fmap_2.
Qed.

Lemma unreferenced_by_references k e : unreferenced_by k e → ¬ references k e.
Proof.
  intros [Hp Hs] [?|He]; [done|].
  apply Exists_exists in He as (s & Hin & Ht).
  rewrite Forall_forall in Hs. by apply (Hs s Hin), truthy_Some.
Qed.

Lemma unreferenced_movements k es :
  Forall (unreferenced_by k) es → movements k es = [].
Proof.
  intros Hun. apply movements_unreferenced. intros He.
  apply Exists_exists in He as (e & Hin & He).
  rewrite Forall_forall in Hun.
  by apply (unreferenced_by_references k e (Hun e Hin)).
Qed.

(** ** The balance of one participant *)

(** C10. Without a group the result is the empty object.  With a group,
    every participant has an entry, set to 0 before the entries are read;
    the entries never remove it, and it is still 0 at the end for a
    participant that paid nothing and appears in no split. *)
Theorem calculateBalances_covers_participants expenses :
  calculateBalances None expenses = ∅ ∧
  ∀ group p, p ∈ members group →
    init_balances (participants group) ∅ !! p_id p = Some zero ∧
    is_Some (calculateBalances (Some group) expenses !! p_id p) ∧
    (Forall (unreferenced_by (p_id p)) expenses →
     calculateBalances (Some group) expenses !! p_id p = Some zero).
Proof.
  split; [done|]. intros group p Hp.
  rewrite (calculateBalances_member group expenses p Hp).
  split_and!; [by apply init_balances_lookup|by eexists|].
  intros Hun. by rewrite unreferenced_movements.
Qed.

(** C takes no part in the refund: the balance of C is 0. *)
Lemma calculateBalances_covers_participants_witness :
  init_balances (participants ABC) ∅ !! "C" = Some zero ∧
  is_Some (calculateBalances (Some ABC) [refund] !! "C") ∧
  calculateBalances (Some ABC) [refund] !! "C" = Some zero.
Proof.
  destruct (calculateBalances_covers_participants [refund]) as [_ H].
  destruct (H ABC pC) as (H1 & H2 & H3); [compute_done|].
  split_and!; [exact H1|exact H2|apply H3; compute_done].
Defined.

(** *** The balance and the sums of what was paid and owed *)

















(** ** The sum of all balances *)

























(** ** Entries whose splits match their amount *)




(** *** The same sum, participant by participant *)









(** ** Transfers *)

Lemma apply_expense_with_expense_type kind e b :
  apply_expense (with_expense_type kind e) b = apply_expense e b.
Proof. reflexivity. Qed.

Lemma forEach_with_expense_type (kinds : ExpenseWithSplits → option string)
    es : ∀ b,
  forEach apply_expense ((λ e, with_expense_type (kinds e) e) <$> es) b =
  forEach apply_expense es b.
Proof.
  induction es as [|e es IH]; intros b; [done|].
  by rewrite fmap_cons, !forEach_cons, IH, apply_expense_with_expense_type.
Qed.

(** C3, as the specification words it, fails: a transfer of 50 from A to B
    is walked like an expense, so A is credited and B debited, where the
    specification credits B and debits A. *)
Lemma transfer_walked_counterexample :
  is_transfer transfer_A_to_B ∧
  calculateBalances (Some ABC) [transfer_A_to_B] !! "A" = Some (Num (dec 50)) ∧
  calculateBalances (Some ABC) [transfer_A_to_B] !! "B" = Some (Num (dec (-50))) ∧
  spec_calculateBalances (Some ABC) [transfer_A_to_B] !! "A"
    = Some (Num (dec (-50))) ∧
  spec_calculateBalances (Some ABC) [transfer_A_to_B] !! "B"
    = Some (Num (dec 50)) ∧
  calculateBalances (Some ABC) [transfer_A_to_B]
    ≠ spec_calculateBalances (Some ABC) [transfer_A_to_B].
Proof. split_and!; compute_done. Qed.


(** C3, amended. An entry of kind transfer is walked like every other
    entry: its payer is credited by the full amount and then the participant
    of each of its splits is debited by the split amount, in the order of
    the splits.  So the payer of a transfer, when they have no split of
    their own, ends the entry credited by its amount, and a recipient with
    one split ends it debited by that split.  No balance depends on the kind
    of any entry. *)
Theorem calculateBalances_transfer_as_expense group expenses e :
  e ∈ expenses → is_transfer e →
  (∀ balances k v, balances !! k = Some v →
     apply_expense e balances !! k =
       Some (foldl settle v (entry_movements k e)))
  ∧ (∀ balances v, balances !! e_paid_by e = Some v →
       own_splits (e_paid_by e) (expense_splits e) = [] →
       apply_expense e balances !! e_paid_by e = Some (add v (e_amount e)))
  ∧ (∀ balances k v x, balances !! k = Some v →
       e_paid_by e ≠ k →
       own_splits k (expense_splits e) = [x]%list →
       apply_expense e balances !! k = Some (sub v x))
  ∧ ∀ kinds : ExpenseWithSplits → option string,
      calculateBalances (Some group)
        ((λ e, with_expense_type (kinds e) e) <$> expenses)
      = calculateBalances (Some group) expenses.
Proof.
  intros _ _. split_and!.
  - intros balances k v Hv.
    by rewrite apply_expense_settle, Hv, settle_all_Some.
  - intros balances v Hv Hown.
    rewrite apply_expense_settle, Hv, settle_all_Some.
    unfold entry_movements. by rewrite decide_True, Hown.
  - intros balances k v x Hv Hne Hown.
    rewrite apply_expense_settle, Hv, settle_all_Some.
    unfold entry_movements. by rewrite decide_False, Hown.
  - intros kinds. unfold calculateBalances.
    apply forEach_with_expense_type.
Qed.

(** The transfer of 50 from A to B, after the dinner: A, who had 90, is
    credited by 50, and B, who had -45, is debited by 50; as expenses the two
    entries give the same balances. *)
Lemma calculateBalances_transfer_as_expense_witness :
  (apply_expense transfer_A_to_B {["A" := Num (dec 90)]} !! "A"
     = Some (foldl settle (Num (dec 90)) (entry_movements "A" transfer_A_to_B)))
  ∧ (apply_expense transfer_A_to_B {["A" := Num (dec 90)]} !! "A"
       = Some (add (Num (dec 90)) (Num (dec 50))))
  ∧ (apply_expense transfer_A_to_B {["B" := Num (dec (-45))]} !! "B"
       = Some (sub (Num (dec (-45))) (Num (dec 50))))
  ∧ calculateBalances (Some ABC)
      ((λ e, with_expense_type (Some "expense") e)
         <$> [dinner; transfer_A_to_B])
    = calculateBalances (Some ABC) [dinner; transfer_A_to_B].
Proof.
  destruct (calculateBalances_transfer_as_expense ABC
              [dinner; transfer_A_to_B] transfer_A_to_B)
    as (H1 & H2 & H3 & H4); [compute_done|compute_done|].
  split_and!.
  - apply (H1 {["A" := Num (dec 90)]} "A" (Num (dec 90))). reflexivity.
  - apply (H2 {["A" := Num (dec 90)]} (Num (dec 90))); reflexivity.
  - apply (H3 {["B" := Num (dec (-45))]} "B" (Num (dec (-45))) (Num (dec 50)));
      [reflexivity|compute_done|reflexivity].
  - exact (H4 (λ _, Some "expense")).
Defined.

(** ** Settlements *)

(** C4, as the specification words it, fails: with a recorded settlement of
    10 from A to B and no entry, the balances of A and B are 0, where the
    specification debits A and credits B by 10. *)
Lemma settlement_ignored_counterexample :
  snapshot_balances settled_snapshot !! "A" = Some zero ∧
  snapshot_balances settled_snapshot !! "B" = Some zero ∧
  spec_snapshot_balances settled_snapshot !! "A" = Some (Num (dec (-10))) ∧
  spec_snapshot_balances settled_snapshot !! "B" = Some (Num (dec 10)) ∧
  snapshot_balances settled_snapshot ≠ spec_snapshot_balances settled_snapshot.
Proof. split_and!; compute_done. Qed.

Lemma spec_apply_settlement_from st a (b : gmap string number) :
  st_amount st = Num a →
  st_from_participant_id st ≠ st_to_participant_id st →
  b !! st_from_participant_id st = Some zero →
  spec_apply_settlement st b !! st_from_participant_id st = Some (Num (- a)).
Proof.
  intros Ha Hne Hb. unfold spec_apply_settlement.
  rewrite add_assign_lookup_ne by done.
  rewrite sub_assign_lookup, Hb, Ha. cbv [ToNumber from_option id].
  unfold sub, zero. do 2 f_equal.
  case_bool_decide as H0; [|by rewrite bool_decide_true].
  rewrite H0. ring.
Qed.

(** C4, amended. The balances are computed from the group and the entries
    alone.  Whatever settlements the snapshot holds, the balance of a
    participant is the result of the credits and debits of the entries, made
    from zero in the order of the ledger, and two snapshots with the same
    group and entries have the same balances.  In particular, with no entry
    and one recorded settlement between two participants, the balance of the
    one who paid it is 0, where debiting the settlement would give the
    opposite of its amount. *)
Theorem snapshot_balances_ignore_settlements s g :
  group (snap_state s) = Some g →
  (∀ p, p ∈ members g →
     snapshot_balances s !! p_id p =
       Some (foldl settle zero (movements (p_id p) (expenses (snap_state s)))))
  ∧ (∀ s', snap_state s' = snap_state s →
       snapshot_balances s' = snapshot_balances s)
  ∧ (∀ st a p,
       expenses (snap_state s) = [] →
       snap_settlements s = [st]%list →
       st_amount st = Num a →
       p ∈ members g →
       st_from_participant_id st = p_id p →
       st_to_participant_id st ≠ p_id p →
       snapshot_balances s !! p_id p = Some zero ∧
       spec_snapshot_balances s !! p_id p = Some (Num (- a))).
Proof.
  intros Hg.
  assert (∀ p, p ∈ members g →
     snapshot_balances s !! p_id p =
       Some (foldl settle zero (movements (p_id p) (expenses (snap_state s)))))
    as Hbalance.
  { intros p Hp. unfold snapshot_balances. rewrite Hg.
    by apply calculateBalances_member. }
  split_and!; [done| |].
  - intros s' Hs'. unfold snapshot_balances. by rewrite Hs'.
  - intros st a p Hnil Hst Ha Hp Hfrom Hto.
    pose proof (Hbalance p Hp) as Hzero.
    rewrite Hnil in Hzero. cbn [movements mbind list_bind foldl] in Hzero.
    split; [done|].
    unfold spec_snapshot_balances. rewrite Hst, forEach_cons, forEach_nil.
    rewrite <- Hfrom. apply spec_apply_settlement_from; [done|congruence|].
    by rewrite Hfrom.
Qed.

(** The snapshot with the settlement of 10 from A to B. *)
Lemma snapshot_balances_ignore_settlements_witness :
  snapshot_balances settled_snapshot !! "A" =
    Some (foldl settle zero
            (movements "A" (expenses (snap_state settled_snapshot))))
  ∧ snapshot_balances
      {| snap_state := snap_state settled_snapshot; snap_settlements := [] |}
    = snapshot_balances settled_snapshot
  ∧ (snapshot_balances settled_snapshot !! "A" = Some zero ∧
     spec_snapshot_balances settled_snapshot !! "A"
       = Some (Num (- dec 10))).
Proof.
  destruct (snapshot_balances_ignore_settlements settled_snapshot ABC)
    as (H1 & H2 & H3); [reflexivity|].
  refine (conj _ (conj _ _)).
  - apply (H1 pA). compute_done.
  - apply (H2 {| snap_state := snap_state settled_snapshot;
                 snap_settlements := [] |}). reflexivity.
  - apply (H3 settlement_A_to_B (dec 10) pA);
      [reflexivity|reflexivity|reflexivity|compute_done|reflexivity|done].
Defined.

(** ** A balance that is not a number *)

(** C5, as the specification words it, fails: the split of B has no usable
    amount, the balance of B is [NaN], the call returns it without raising
    an error, and the dashboard reads it as 0 and shows B as settled. *)
Lemma nan_balance_counterexample :
  calculateBalances (Some ABC) corrupt_ledger !! "B" = Some NaN ∧
  calculateBalances_call (Some ABC) corrupt_ledger
    = Returns (calculateBalances (Some ABC) corrupt_ledger) ∧
  calculateBalances_call (Some ABC) corrupt_ledger ≠ Throws ValidationError ∧
  displayed_balance (calculateBalances (Some ABC) corrupt_ledger) pB = zero ∧
  balance_label (calculateBalances (Some ABC) corrupt_ledger) pB = Settled.
Proof. split_and!; [compute_done|done|done|compute_done|by vm_compute]. Qed.

(** C5, amended. A balance that is [NaN] raises no error: the call returns
    the mapping with the [NaN] in it, and the dashboard, which reads a
    balance with [|| 0], displays that participant with balance 0, as
    settled. *)
Theorem nan_balance_returned_then_displayed_as_zero group expenses p :
  calculateBalances group expenses !! p_id p = Some NaN →
  calculateBalances_call group expenses
    = Returns (calculateBalances group expenses) ∧
  displayed_balance (calculateBalances group expenses) p = zero ∧
  balance_label (calculateBalances group expenses) p = Settled.
Proof.
  intros Hnan. split; [done|].
  assert (displayed_balance (calculateBalances group expenses) p = zero)
    as Hzero by (unfold displayed_balance; by rewrite Hnan).
  split; [done|]. unfold balance_label. rewrite Hzero. by vm_compute.
Qed.

(** The ledger in which the split of B has no amount. *)
Lemma nan_balance_returned_then_displayed_as_zero_witness :
  calculateBalances_call (Some ABC) corrupt_ledger
    = Returns (calculateBalances (Some ABC) corrupt_ledger) ∧
  displayed_balance (calculateBalances (Some ABC) corrupt_ledger) pB = zero ∧
  balance_label (calculateBalances (Some ABC) corrupt_ledger) pB = Settled.
Proof.
  apply (nan_balance_returned_then_displayed_as_zero (Some ABC) corrupt_ledger pB).
  compute_done.
Defined.


(** ** The expense of 100 for three *)

Lemma three_splits_balances a sA sB sC :
  calculateBalances (Some ABC)
    [mkExpense (Some "expense") "A" a
       [mkSplit "A" sA; mkSplit "B" sB; mkSplit "C" sC]]
  = {["A" := sub a sA; "B" := sub zero sB; "C" := sub zero sC]}.
Proof.
  apply map_eq. intros k. rewrite calculateBalances_settle.
  destruct (decide (k = "A")) as [->|HA].
  { rewrite lookup_insert_eq. cbv -[add sub zero]. by rewrite add_zero_l. }
  rewrite lookup_insert_ne by done.
  destruct (decide (k = "B")) as [->|HB].
  { rewrite lookup_insert_eq. by cbv -[add sub zero]. }
  rewrite lookup_insert_ne by done.
  destruct (decide (k = "C")) as [->|HC].
  { rewrite lookup_singleton_eq. by cbv -[add sub zero]. }
  rewrite lookup_singleton_ne by done.
  rewrite decide_False.
  2:{ unfold member_ids, members. simpl.
      rewrite !elem_of_cons, elem_of_nil. by intros [?|[?|[?|?]]]. }
  rewrite movements_unreferenced; [done|].
  intros [He|He]%Exists_cons; [|by apply Exists_nil in He].
  destruct He as [He|He]; [by simpl in He|].
  simpl in He. rewrite !Exists_cons, Exists_nil in He. simpl in He.
  destruct He as [?|[?|[?|?]]]; congruence.
Qed.

(** C6, as the specification words it, fails: with the remainder unit on
    the split of the first participant after the payer, B, the balance of B
    is -33.34 and the balance of C is -33.33, not the -33.33 and -33.34 of
    the scenario. *)
Lemma remainder_on_B_counterexample :
  (s_amount <$> expense_splits hundred_remainder_on_B
     = [Num (double 33.33); Num (double 33.34); Num (double 33.33)]) ∧
  splits_match_amount hundred_remainder_on_B ∧
  calculateBalances (Some ABC) [hundred_remainder_on_B]%list !! "B"
    = Some (Num (double (-33.34))) ∧
  calculateBalances (Some ABC) [hundred_remainder_on_B]%list !! "C"
    = Some (Num (double (-33.33))) ∧
  calculateBalances (Some ABC) [hundred_remainder_on_B]%list !! "B"
    ≠ Some (Num (double (-33.33))) ∧
  calculateBalances (Some ABC) [hundred_remainder_on_B]%list !! "C"
    ≠ Some (Num (double (-33.34))).
Proof. split_and!; compute_done. Qed.

(** C6, amended. The balance computation charges every participant with
    their stored split and does not place the remainder unit itself: for
    one expense paid by A with splits for A, B and C, the balance of A is the
    amount less the split of A, and the balances of B and C are the opposites
    of their splits.  With 100 split as 33.33, 33.33 and 33.34, the remainder
    unit on the split of C, the balances are A = +66.67, B = -33.33,
    C = -33.34, shown as such, and sum to 0 exactly; with the remainder unit
    on the split of B they are A = +66.67, B = -33.34, C = -33.33, and sum to
    0 as well. *)
Theorem hundred_split_balances :
  (∀ a sA sB sC,
     calculateBalances (Some ABC)
       [mkExpense (Some "expense") "A" a
          [mkSplit "A" sA; mkSplit "B" sB; mkSplit "C" sC]]
     = {["A" := sub a sA; "B" := sub zero sB; "C" := sub zero sC]}) ∧
  calculateBalances (Some ABC) [hundred_remainder_on_C]%list
    = {["A" := Num (double 66.67); "B" := Num (double (-33.33));
        "C" := Num (double (-33.34))]} ∧
  sum_balances (calculateBalances (Some ABC) [hundred_remainder_on_C]%list)
    = zero ∧
  balance_label (calculateBalances (Some ABC) [hundred_remainder_on_C]%list)
    <$> [pA; pB; pC]
    = [Gets (Num (double 66.67)); Owes (Num (double 33.33));
       Owes (Num (double 33.34))] ∧
  calculateBalances (Some ABC) [hundred_remainder_on_B]%list
    = {["A" := Num (double 66.67); "B" := Num (double (-33.34));
        "C" := Num (double (-33.33))]} ∧
  sum_balances (calculateBalances (Some ABC) [hundred_remainder_on_B]%list)
    = zero.
Proof.
  split; [apply three_splits_balances|].
  split_and!; compute_done.
Qed.

(** ** The exact-amount policy *)

(** C8. The exact-amount policy fails with [SplitMismatchError] exactly when
    the sum of the custom amounts differs from the entry amount by more than
    0.01, and otherwise gives every participant their custom amount; 50 with
    custom amounts 20 and 35 is rejected. *)
Theorem computeSplits_exact_mismatch amount customs :
  (computeSplits_exact amount customs = Throws SplitMismatchError ↔
   cent < Qcabs (foldr Qcplus 0 (snd <$> customs) - amount)) ∧
  (¬ cent < Qcabs (foldr Qcplus 0 (snd <$> customs) - amount) ↔
   computeSplits_exact amount customs =
     Returns ((λ c, split_of (fst c) (snd c)) <$> customs)) ∧
  computeSplits_exact (dec 50) [("A", dec 20); ("B", dec 35)]
    = Throws SplitMismatchError.
Proof.
  unfold computeSplits_exact. split_and!.
  - case_bool_decide; split; done.
  - case_bool_decide; split; done.
  - compute_done.
Qed.


(** ** Fetching the group *)

Lemma eq_id_select db groupId :
  eq_id groupId (select_with_participants db) =
  group_with_participants db
    <$> filter (λ r, gr_id r = groupId) (group_table db).
Proof.
  unfold eq_id, select_with_participants.
  induction (group_table db) as [|r rs IH]; [done|].
  rewrite fmap_cons, !filter_cons, IH. simpl.
  by destruct (decide (gr_id r = groupId)).
Qed.

Lemma filter_unique_key {A} (f : A → string) (l : list A) x :
  NoDup (f <$> l) → x ∈ l → filter (λ y, f y = f x) l = [x]%list.
Proof.
  induction l as [|y l IH]; intros Hnd Hx; [by apply elem_of_nil in Hx|].
  rewrite fmap_cons in Hnd. apply NoDup_cons in Hnd as [Hy Hnd].
  rewrite filter_cons. apply elem_of_cons in Hx as [->|Hx].
  - rewrite decide_True by done. f_equal. apply filter_none.
    apply Forall_forall. intros z Hz Heq. apply Hy. rewrite <- Heq.
    by apply list_elem_of_fmap_2.
  - rewrite decide_False; [by apply IH|].
    intros Heq. apply Hy. rewrite Heq. by apply list_elem_of_fmap_2.
Qed.

Lemma single_data_Some {A} (rows : list A) row :
  data (single rows) = Some row →
  rows = [row]%list ∧ error_of (single rows) = None.
Proof. destruct rows as [|r [|r' rows]]; simpl; try done. by intros [= ->]. Qed.

Lemma single_data_None {A} (rows : list A) :
  data (single rows) = None → error_of (single rows) = Some NotFoundError.
Proof. by destruct rows as [|r [|r' rows]]. Qed.

(** C9. [getGroupById] answers the row of the group together with the list
    of the participants that reference it, each with its id, name, group
    reference and creation timestamp; with no group of that identifier it
    fails with [NotFoundError] and no data; data is never returned together
    with an error or without the list of participants. *)
Theorem getGroupById_group_with_participants db groupId :
  (Forall (λ r, gr_id r ≠ groupId) (group_table db) →
   getGroupById db groupId
     = {| data := None; error_of := Some NotFoundError |}) ∧
  (∀ g, data (getGroupById db groupId) = Some g →
     error_of (getGroupById db groupId) = None ∧
     g_id g = groupId ∧
     (∃ r, r ∈ group_table db ∧ g = group_with_participants db r) ∧
     participants g =
       Some (filter (λ p, p_group_id p = Some groupId)
               (participants_table db))) ∧
  (data (getGroupById db groupId) = None →
   error_of (getGroupById db groupId) = Some NotFoundError) ∧
  (NoDup (gr_id <$> group_table db) →
   ∀ r, r ∈ group_table db → gr_id r = groupId →
     getGroupById db groupId
       = {| data := Some (group_with_participants db r);
            error_of := None |}).
Proof.
  unfold getGroupById. rewrite eq_id_select. split_and!.
  - intros Habsent. by rewrite filter_none.
  - intros g [Hrows Herr]%single_data_Some. split; [done|].
    destruct (filter _ (group_table db)) as [|r [|r' rs]] eqn:Hf;
      simpl in Hrows; try done.
    injection Hrows as <-.
    assert (r ∈ filter (λ r, gr_id r = groupId) (group_table db)) as Hr
      by (rewrite Hf; by left).
    apply list_elem_of_filter in Hr as [Hid Hr].
    split_and!; [done|by exists r|]. simpl. by rewrite Hid.
  - apply single_data_None.
  - intros Hnd r Hr <-.
    by rewrite (filter_unique_key gr_id (group_table db) r).
Qed.

(** The sample store has the group g1 with A, B and C, and no group g9. *)
Lemma getGroupById_group_with_participants_witness :
  getGroupById sample_db "g9"
    = {| data := None; error_of := Some NotFoundError |} ∧
  error_of (getGroupById sample_db "g9") = Some NotFoundError ∧
  getGroupById sample_db "g1"
    = {| data := Some ABC; error_of := None |} ∧
  (error_of (getGroupById sample_db "g1") = None ∧
   g_id ABC = "g1" ∧
   (∃ r, r ∈ group_table sample_db ∧ ABC = group_with_participants sample_db r) ∧
   participants ABC =
     Some (filter (λ p, p_group_id p = Some "g1")
             (participants_table sample_db))).
Proof.
  destruct (getGroupById_group_with_participants sample_db "g9")
    as (Habsent & _ & Hnone & _).
  destruct (getGroupById_group_with_participants sample_db "g1")
    as (_ & Hsome & _ & Hpresent).
  refine (conj _ (conj _ (conj _ _))).
  - apply Habsent. compute_done.
  - apply Hnone. reflexivity.
  - apply (Hpresent ltac:(compute_done)
             {| gr_created_at := "2025-01-01"; gr_description := None;
                gr_id := "g1"; gr_name := "trip" |});
      [compute_done|reflexivity].
  - apply (Hsome ABC). reflexivity.
Defined.

(** * Further properties of the dashboard *)

(** ** The keys of the result *)

(** X1. The result has an entry for a key exactly when the key is the
    identifier of a participant of the group, the payer of an entry, or the
    participant of a split. *)
Theorem calculateBalances_keys g es k :
  is_Some (calculateBalances (Some g) es !! k) ↔
  k ∈ member_ids g ∨ Exists (references k) es.
Proof.
  rewrite calculateBalances_settle.
  destruct (movements k es) as [|m ms] eqn:Hm.
  - assert (¬ Exists (references k) es) as Hno.
    { intros He%movements_references. by rewrite Hm in He. }
    rewrite settle_all_nil.
    destruct (decide (k ∈ member_ids g)) as [Hk|Hk].
    + split; [by left|by eexists].
    + split; [by intros [? ?]|by intros [?|?]].
  - split; [|intros _; apply settle_all_is_Some].
    intros _. right. apply movements_references. by rewrite Hm.
Qed.

(** X2. A payer or split participant that is not a participant of the
    group gets an entry whose value is [NaN], whatever the amounts. *)
Theorem calculateBalances_outsider_NaN g es k :
  k ∉ member_ids g →
  Exists (references k) es →
  calculateBalances (Some g) es !! k = Some NaN.
Proof.
  intros Hk He. rewrite calculateBalances_settle, decide_False by done.
  apply movements_references in He.
  destruct (movements k es) as [|m ms]; [done|].
  apply settle_all_None.
Qed.

(** Z pays for A: the result has a key Z, with [NaN]. *)
Lemma calculateBalances_outsider_NaN_witness :
  calculateBalances (Some ABC) [dinner; outsider_pays] !! "Z" = Some NaN.
Proof.
  apply (calculateBalances_outsider_NaN ABC [dinner; outsider_pays] "Z");
    compute_done.
Defined.

Lemma settle_all_NaN v ms :
  Credit NaN ∈ ms ∨ Debit NaN ∈ ms → settle_all v ms = Some NaN.
Proof.
  intros Hin.
  assert (∃ m, m ∈ ms ∧ ∀ x, settle x m = NaN) as (m & Hm & Hnan).
  { destruct Hin as [Hin|Hin]; eexists; (split; [exact Hin|]); intros x.
    - apply add_NaN_r.
    - apply sub_NaN_r. }
  apply list_elem_of_split in Hm as (l1 & l2 & ->).
  rewrite settle_all_app, settle_all_cons, Hnan, settle_all_Some.
  by rewrite foldl_settle_NaN.
Qed.

Lemma corrupt_for_movements k es :
  Exists (corrupt_for k) es →
  Credit NaN ∈ movements k es ∨ Debit NaN ∈ movements k es.
Proof.
  induction 1 as [e es He|e es _ IH]; rewrite movements_cons.
  - unfold entry_movements.
    destruct He as [[Hp Ha]|He]; [left|right].
    + rewrite decide_True, <- Ha by done. set_solver.
    + apply elem_of_app. left. apply elem_of_app. right.
      apply Exists_exists in He as (s & Hs & Hk & Ha).
      apply list_elem_of_fmap_2. rewrite <- Ha.
      apply list_elem_of_fmap_2. by apply list_elem_of_filter.
  - destruct IH as [IH|IH]; [left|right]; apply elem_of_app; by right.
Qed.

(** X3. One amount that is not a number is enough: when the amount of an
    entry paid by [k], or of a split of [k], is [NaN], the balance of [k] is
    [NaN] whatever the other entries are. *)
Theorem calculateBalances_corrupt_amount g es k :
  Exists (corrupt_for k) es →
  calculateBalances (Some g) es !! k = Some NaN.
Proof.
  intros Hc. rewrite calculateBalances_settle.
  by apply settle_all_NaN, corrupt_for_movements.
Qed.

(** The split of B without amount, followed by the dinner. *)
Lemma calculateBalances_corrupt_amount_witness :
  calculateBalances (Some ABC) (corrupt_ledger ++ [dinner]) !! "B" = Some NaN.
Proof.
  apply (calculateBalances_corrupt_amount ABC (corrupt_ledger ++ [dinner]) "B").
  compute_done.
Defined.

(** ** Entries that do not concern a key *)

Lemma movements_filter_references k es :
  movements k (filter (references k) es) = movements k es.
Proof.
  induction es as [|e es IH]; [done|].
  rewrite filter_cons, (movements_cons k e es).
  destruct (decide (references k e)) as [He|He].
  - by rewrite movements_cons, IH.
  - by rewrite (entry_movements_unreferenced k e He), IH.
Qed.

(** X4. The balance of a key is decided by the entries that reference it:
    leaving out all the other entries gives the same balance. *)
Theorem calculateBalances_local g es k :
  calculateBalances (Some g) es !! k =
  calculateBalances (Some g) (filter (references k) es) !! k.
Proof.
  by rewrite !calculateBalances_settle, movements_filter_references.
Qed.

(** ** The list of participants as a set *)

(** X5. The result depends on the participants of the group only through
    the set of their identifiers: their order and repetitions in the list
    do not matter. *)
Theorem calculateBalances_members_set g g' es :
  list_to_set (member_ids g) =@{gset string} list_to_set (member_ids g') →
  calculateBalances (Some g) es = calculateBalances (Some g') es.
Proof.
  intros Hset. unfold calculateBalances. f_equal.
  apply map_eq. intros k. rewrite !init_balances_lookup_any.
  apply decide_ext.
  by rewrite <- (elem_of_list_to_set (C := gset string) k (member_ids g)),
    Hset, elem_of_list_to_set.
Qed.

(** A, B, C listed as C, A, B, A. *)
Lemma calculateBalances_members_set_witness :
  calculateBalances (Some ABC) [dinner; refund]
  = calculateBalances (Some ABC_reordered) [dinner; refund].
Proof.
  apply (calculateBalances_members_set ABC ABC_reordered). compute_done.
Defined.

(** ** The order of the entries *)

Lemma references_referenced k e : references k e ↔ k ∈ referenced e.
Proof.
  unfold references, referenced.
  rewrite elem_of_cons, list_elem_of_omap, Exists_exists.
  split; (intros [?|?]; [by left|by right]).
Qed.

(** X6. Two neighbouring entries that assign no common key can be
    exchanged: the result is the same. *)
Theorem calculateBalances_swap_unrelated g es1 e e' es2 :
  Forall (λ k, k ∉ referenced e') (referenced e) →
  calculateBalances (Some g) (es1 ++ e :: e' :: es2) =
  calculateBalances (Some g) (es1 ++ e' :: e :: es2).
Proof.
  intros Hdisj. apply map_eq. intros k.
  rewrite !calculateBalances_settle. f_equal.
  rewrite !movements_app, !movements_cons. f_equal.
  rewrite !app_assoc. f_equal.
  destruct (decide (references k e)) as [He|He].
  - rewrite (entry_movements_unreferenced k e'); [by rewrite app_nil_r|].
    intros He'%references_referenced.
    apply references_referenced in He.
    rewrite Forall_forall in Hdisj. by apply (Hdisj k He).
  - by rewrite (entry_movements_unreferenced k e He), app_nil_r.
Qed.

(** The lunch of A and B, and what C pays for C. *)
Lemma calculateBalances_swap_unrelated_witness :
  calculateBalances (Some ABC) ([dinner] ++ lunch :: own_treat :: [refund]) =
  calculateBalances (Some ABC) ([dinner] ++ own_treat :: lunch :: [refund]).
Proof.
  apply (calculateBalances_swap_unrelated ABC [dinner] lunch own_treat
           [refund]).
  compute_done.
Defined.

(** Entries of the same participant cannot be exchanged in general: the
    balance of A after 0.1, 0.7 and 0.1 changes when the two entries of 0.1
    come first. *)
Lemma calculateBalances_order_matters :
  ∃ e1 e2 e3,
    dimes = [e1; e2; e3] ∧
    calculateBalances (Some ABC) [e1; e2; e3] !! "A"
      = Some (Num (dec (-0.5))) ∧
    calculateBalances (Some ABC) [e1; e3; e2] !! "A"
      = Some (Num (double (-0.49999999999999994))).
Proof. do 3 eexists. split; [reflexivity|]. split; compute_done. Qed.

(** ** Totals *)






(** ** The labels of the balances *)

Lemma balance_label_label_of b p :
  balance_label b p = label_of (displayed_balance b p).
Proof. reflexivity. Qed.

Lemma or_zero_Num q : or_zero (Some (Num q)) = Num q.
Proof. simpl. case_bool_decide; [by subst|done]. Qed.

Lemma Qc_pos_opp_iff (q : Qc) : 0 < - q ↔ q < 0.
Proof.
  rewrite (Qclt_minus_iff q 0).
  by replace (0 + - q) with (- q) by ring.
Qed.

Lemma label_of_Num q :
  label_of (Num q) =
    if bool_decide (Qcabs q < cent) then Settled
    else if bool_decide (0 < q) then Gets (Num q)
    else Owes (Num (Qcabs q)).
Proof. reflexivity. Qed.

Lemma label_of_zero : label_of zero = Settled.
Proof. by vm_compute. Qed.

(** X9. A participant is shown as settled, as getting an amount, or as
    owing an amount; an amount shown is a number of at least 0.01, it is the
    balance after Gets and its opposite after Owes; settled is shown for a
    balance below 0.01 in magnitude, and for one that is missing or not a
    number. *)
Theorem balance_label_amounts b p :
  match balance_label b p with
  | Settled =>
      ∀ q, b !! p_id p = Some (Num q) → Qcabs q < cent
  | Gets x =>
      ∃ q, x = Num q ∧ cent ≤ q ∧ b !! p_id p = Some (Num q)
  | Owes x =>
      ∃ q, x = Num q ∧ cent ≤ q ∧ b !! p_id p = Some (Num (- q))
  end.
Proof.
  rewrite balance_label_label_of. unfold displayed_balance.
  destruct (b !! p_id p) as [[q|]|];
    [|by cbn [or_zero]; rewrite label_of_zero..].
  rewrite or_zero_Num, label_of_Num.
  case_bool_decide as Hneutral; [by intros q' [= <-]|].
  apply Qcnot_lt_le in Hneutral.
  case_bool_decide as Hpos.
  - exists q. split_and!; [done| |done].
    by rewrite Qcabs_pos in Hneutral by by apply Qclt_le_weak.
  - apply Qcnot_lt_le in Hpos. exists (Qcabs q).
    rewrite (Qcabs_neg q Hpos), Qcopp_involutive. split_and!; [done| |done].
    by rewrite Qcabs_neg in Hneutral.
Qed.

Lemma label_of_opp q :
  label_of (Num (- q)) = mirror_label (label_of (Num q)).
Proof.
  rewrite !label_of_Num, Qcabs_opp.
  case_bool_decide as Hneutral; [done|].
  rewrite (bool_decide_ext _ _ (Qc_pos_opp_iff q)).
  case_bool_decide as Hneg.
  - rewrite (bool_decide_false (0 < q))
      by by apply Qcle_not_lt, Qclt_le_weak.
    simpl. by rewrite Qcabs_neg by by apply Qclt_le_weak.
  - apply Qcnot_lt_le in Hneg.
    destruct (Qcle_lt_or_eq _ _ Hneg) as [Hpos| <-].
    + rewrite bool_decide_true by done. simpl.
      by rewrite Qcabs_pos.
    + by destruct Hneutral.
Qed.

(** X10. When the balances of two participants are opposite numbers, their
    labels mirror each other: one gets what the other owes, or both are
    settled. *)
Theorem balance_label_mirror (b : gmap string number) a c q :
  b !! p_id a = Some (Num q) →
  b !! p_id c = Some (Num (- q)) →
  balance_label b c = mirror_label (balance_label b a).
Proof.
  intros Ha Hc. rewrite !balance_label_label_of. unfold displayed_balance.
  rewrite Ha, Hc, !or_zero_Num. apply label_of_opp.
Qed.

(** After the lunch A gets 15 and B owes 15. *)
Lemma balance_label_mirror_witness :
  balance_label (calculateBalances (Some AB) [lunch]%list) pB =
  mirror_label (balance_label (calculateBalances (Some AB) [lunch]%list) pA).
Proof.
  apply (balance_label_mirror (calculateBalances (Some AB) [lunch]%list)
           pA pB (dec 15)); compute_done.
Defined.

(** The balances of two participants need not be opposite, even when the
    splits add up to the amount: after A paid 0.11, of which 0.1 for A and
    0.01 for B, A is shown as settled and B as owing 0.01. *)
Lemma balance_label_eleven_cents :
  splits_add_up eleven_cents ∧
  balance_label (calculateBalances (Some AB) [eleven_cents]%list) pA
    = Settled ∧
  balance_label (calculateBalances (Some AB) [eleven_cents]%list) pB
    = Owes (Num (double 0.01)).
Proof. split_and!; compute_done. Qed.

(** ** Names in the list of transactions *)

Lemma or_unknown_nonempty v : or_unknown v ≠ "".
Proof.
  unfold or_unknown. destruct v as [n|]; simpl; [|done].
  by case_bool_decide.
Qed.

Lemma find_none_id ps k :
  k ∉ p_id <$> ps → List.find (λ p, bool_decide (p_id p = k)) ps = None.
Proof.
  induction ps as [|q ps IH]; intros Hk; [done|]. simpl.
  rewrite fmap_cons, not_elem_of_cons in Hk. destruct Hk as [Hq Hk].
  rewrite bool_decide_false by done. by apply IH.
Qed.

Lemma find_unique_id ps p :
  NoDup (p_id <$> ps) → p ∈ ps →
  List.find (λ q, bool_decide (p_id q = p_id p)) ps = Some p.
Proof.
  induction ps as [|q ps IH]; intros Hnd Hp; [by apply elem_of_nil in Hp|].
  rewrite fmap_cons in Hnd. apply NoDup_cons in Hnd as [Hq Hnd]. simpl.
  apply elem_of_cons in Hp as [->|Hp].
  - by rewrite bool_decide_true.
  - rewrite bool_decide_false; [by apply IH|].
    intros Heq. apply Hq. rewrite Heq. by apply list_elem_of_fmap_2.
Qed.

(** X11. The name shown for a participant is never empty: it is "me" for
    the current participant, also when the group is not loaded or does not
    list that participant, and "Unknown" for any other identifier when the
    group is not loaded or has no participant with that identifier. *)
Theorem getParticipantDisplayName_fallbacks current grp k :
  getParticipantDisplayName current grp k ≠ "" ∧
  (current = Some k → getParticipantDisplayName current grp k = "me") ∧
  (current ≠ Some k →
   (grp = None ∨ ∃ g, grp = Some g ∧ k ∉ member_ids g) →
   getParticipantDisplayName current grp k = "Unknown").
Proof.
  unfold getParticipantDisplayName. split_and!.
  - case_bool_decide; [done|apply or_unknown_nonempty].
  - intros ->. by rewrite bool_decide_true.
  - intros Hcur Hgrp. rewrite bool_decide_false by done.
    destruct Hgrp as [->|(g & -> & Hk)]; [done|].
    unfold member_ids, members in Hk. simpl.
    destruct (participants g) as [ps|]; simpl in *; [|done].
    by rewrite find_none_id.
Qed.

(** D is not in the group of A, B and C; A is the current participant. *)
Lemma getParticipantDisplayName_fallbacks_witness :
  getParticipantDisplayName (Some "A") (Some ABC) "D" ≠ "" ∧
  getParticipantDisplayName (Some "A") None "A" = "me" ∧
  getParticipantDisplayName (Some "A") (Some ABC) "D" = "Unknown".
Proof.
  destruct (getParticipantDisplayName_fallbacks (Some "A") (Some ABC) "D")
    as (H1 & _ & H3).
  destruct (getParticipantDisplayName_fallbacks (Some "A") None "A")
    as (_ & H2 & _).
  split_and!; [exact H1|by apply H2|].
  apply H3; [done|]. right. exists ABC. split; [done|compute_done].
Defined.

(** X12. When the identifiers of the participants are distinct, a
    participant of the group other than the current one is shown by their
    own name, provided they have a name that is not empty. *)
Theorem getParticipantDisplayName_name current g p n :
  NoDup (member_ids g) →
  p ∈ members g →
  current ≠ Some (p_id p) →
  p_name p = Some n → n ≠ "" →
  getParticipantDisplayName current (Some g) (p_id p) = n.
Proof.
  intros Hnd Hp Hcur Hn Hne. unfold getParticipantDisplayName.
  rewrite bool_decide_false by done.
  unfold member_ids, members in *. simpl.
  destruct (participants g) as [ps|]; simpl in *;
    [|by apply elem_of_nil in Hp].
  rewrite (find_unique_id ps p Hnd Hp). simpl. rewrite Hn.
  unfold or_unknown. simpl. by rewrite bool_decide_false.
Qed.

(** B, seen by A. *)
Lemma getParticipantDisplayName_name_witness :
  getParticipantDisplayName (Some "A") (Some ABC) "B" = "B".
Proof.
  apply (getParticipantDisplayName_name (Some "A") ABC pB "B");
    compute_done.
Defined.

(** ** The share of the current participant *)

Lemma find_own_split c splits :
  c ≠ "" →
  (length (own_splits c splits) ≤ 1)%nat →
  or_zero
    (s_amount <$>
       List.find (λ split, bool_decide (s_participant_id split = Some c))
         splits)
  = or_zero (Some (sum_numbers (own_splits c splits))).
Proof.
  intros Hc. induction splits as [|s splits IH]; intros Hlen.
  - by vm_compute.
  - rewrite (own_splits_cons c s splits) in *. simpl List.find.
    assert (truthy (s_participant_id s) = Some c ↔ s_participant_id s = Some c)
      as Hiff.
    { split; [apply truthy_Some|]. intros ->. simpl.
      by rewrite bool_decide_false. }
    unfold own_splits at 1. unfold own_splits at 1 in Hlen.
    rewrite filter_cons, filter_nil in *.
    destruct (decide (truthy (s_participant_id s) = Some c)) as [Hs|Hs].
    + rewrite bool_decide_true by by apply Hiff.
      rewrite fmap_cons, fmap_nil in *. simpl in Hlen.
      destruct (own_splits c splits); [|simpl in Hlen; lia].
      by rewrite app_nil_r, sum_numbers_cons, sum_numbers_nil, add_zero_r.
    + rewrite bool_decide_false by (by intros ?%Hiff).
      rewrite fmap_nil, app_nil_l in *. by apply IH.
Qed.

(** What one entry does to the balance of [k] when it has at most one split
    of [k]. *)
Lemma apply_expense_credit_debit e b k v :
  (length (own_splits k (expense_splits e)) ≤ 1)%nat →
  b !! k = Some v →
  apply_expense e b !! k =
    Some (sub (add v (if decide (e_paid_by e = k) then e_amount e else zero))
              (sum_numbers (own_splits k (expense_splits e)))).
Proof.
  intros Hlen Hk. rewrite apply_expense_settle, Hk, settle_all_Some.
  unfold entry_movements.
  destruct (own_splits k (expense_splits e)) as [|x [|y xs]];
    [| |simpl in Hlen; lia].
  - rewrite fmap_nil, app_nil_r, sum_numbers_nil, sub_zero_r.
    destruct (decide (e_paid_by e = k)); [done|].
    by rewrite add_zero_r.
  - rewrite sum_numbers_cons, sum_numbers_nil, add_zero_r.
    destruct (decide (e_paid_by e = k)); [done|].
    by rewrite add_zero_r.
Qed.

(** X13. The share shown for the current participant is 0 when no
    participant is chosen; otherwise, when the entry has at most one split
    for that participant, it is the amount that the entry debits from their
    balance, with 0 shown when that amount is not a number. *)
Theorem myShare_is_debit current e :
  (truthy current = None → myShare current e = zero) ∧
  (∀ c, truthy current = Some c →
     (length (own_splits c (expense_splits e)) ≤ 1)%nat →
     myShare current e
       = or_zero (Some (sum_numbers (own_splits c (expense_splits e))))
     ∧ ∀ b v, b !! c = Some v →
         apply_expense e b !! c =
           Some (sub (add v (if decide (e_paid_by e = c)
                             then e_amount e else zero))
                     (sum_numbers (own_splits c (expense_splits e))))).
Proof.
  unfold myShare. split; [by intros ->|].
  intros c Hc Hlen. rewrite Hc. split.
  - assert (current = Some c ∧ c ≠ "") as [-> Hne].
    { destruct current as [c'|]; simpl in Hc; [|done].
      case_bool_decide; [done|]. by injection Hc as ->. }
    by apply find_own_split.
  - intros b v. by apply apply_expense_credit_debit.
Qed.

(** The lunch seen by B: 15, which is what it debits from B. *)
Lemma myShare_is_debit_witness :
  myShare None lunch = zero ∧
  myShare (Some "B") lunch
    = or_zero (Some (sum_numbers (own_splits "B" (expense_splits lunch)))) ∧
  apply_expense lunch {["B" := zero]} !! "B"
    = Some (sub (add zero zero)
                (sum_numbers (own_splits "B" (expense_splits lunch)))).
Proof.
  destruct (myShare_is_debit None lunch) as [H0 _].
  destruct (myShare_is_debit (Some "B") lunch) as [_ H1].
  destruct (H1 "B") as [H2 H3]; [reflexivity|compute_done|].
  split_and!; [by apply H0|exact H2|].
  apply (H3 {["B" := zero]} zero). reflexivity.
Defined.

(** ** The dialog *)

Lemma dialog_step_invariant st st' :
  dialog_step st st' →
  (∀ e, editingExpense st = Some e →
     showExpenseDialog st = true ∧ dialogType st = expense_type_or_expense e) →
  ∀ e, editingExpense st' = Some e →
    showExpenseDialog st' = true ∧ dialogType st' = expense_type_or_expense e.
Proof.
  intros Hstep Hinv e.
  destruct Hstep as [type st|expense st|open st|groupId grp persist st];
    simpl.
  - done.
  - by intros [= ->].
  - destruct open; [|done]. intros He. by destruct (Hinv e He).
  - unfold handleSaveExpense.
    destruct (truthy groupId), grp; try apply Hinv.
    destruct (persist _); [done|apply Hinv].
Qed.

(** X14. Whatever the sequence of openings, edits, closings and saves, an
    entry is being edited only while the dialog is open, and the dialog then
    has the type of that entry ("expense" when the entry has none). *)
Theorem dialog_editing_invariant st :
  rtc dialog_step initial_dialog st →
  ∀ e, editingExpense st = Some e →
    showExpenseDialog st = true ∧ dialogType st = expense_type_or_expense e.
Proof.
  revert st.
  apply (rtc_ind_r
           (λ st, ∀ e, editingExpense st = Some e →
              showExpenseDialog st = true
              ∧ dialogType st = expense_type_or_expense e)
           initial_dialog).
  - done.
  - intros st st' _ Hstep IH. by apply (dialog_step_invariant st st').
Qed.

(** The transfer is edited after the income dialog was opened and closed. *)
Lemma dialog_editing_invariant_witness :
  showExpenseDialog
    (handleEditExpense transfer_A_to_B
       (onOpenChange false (handleOpenDialog "income" initial_dialog))) = true
  ∧ dialogType
      (handleEditExpense transfer_A_to_B
         (onOpenChange false (handleOpenDialog "income" initial_dialog)))
    = expense_type_or_expense transfer_A_to_B.
Proof.
  apply (dialog_editing_invariant
           (handleEditExpense transfer_A_to_B
              (onOpenChange false (handleOpenDialog "income" initial_dialog))));
    [|reflexivity].
  eapply rtc_l; [apply (step_open "income")|].
  eapply rtc_l; [apply (step_open_change false)|].
  eapply rtc_l; [apply (step_edit transfer_A_to_B)|].
  apply rtc_refl.
Defined.

(** ** Loading the page *)

Lemma fetchExpenses_loaded g groupId outcome pg :
  truthy groupId = Some g →
  loading (fetchExpenses groupId outcome pg) = false ∧
  group (page_state (fetchExpenses groupId outcome pg))
    = group (page_state pg).
Proof. intros Hg. unfold fetchExpenses. rewrite Hg. by destruct outcome. Qed.

Lemma fetchGroupData_group groupId current outcome pg :
  loading (fetchGroupData groupId current outcome pg) = loading pg ∧
  expenses (page_state (fetchGroupData groupId current outcome pg))
    = expenses (page_state pg) ∧
  group (page_state (fetchGroupData groupId current outcome pg)) =
    match truthy groupId, outcome with
    | Some _, Returns response =>
        match response_error_message response, response_data response with
        | None, Some data => Some data
        | _, _ => group (page_state pg)
        end
    | _, _ => group (page_state pg)
    end.
Proof.
  unfold fetchGroupData. destruct (truthy groupId); [|done].
  destruct outcome as [response|]; [|done].
  by destruct (response_error_message response), (response_data response).
Qed.

(** X15. Without a group identifier neither fetch does anything and the
    page stays on the loading screen.  With one, once both fetches have
    ended, in either order, the loading screen is gone whether they
    succeeded or failed, and the dashboard is shown exactly when the store
    answered the group without an error; otherwise the page says that the
    group was not found. *)
Theorem mount_view groupId current group_outcome expenses_outcome :
  (truthy groupId = None →
   fetchExpenses groupId expenses_outcome
     (fetchGroupData groupId current group_outcome initial_page)
   = initial_page
   ∧ render_view initial_page = LoadingScreen) ∧
  (∀ g, truthy groupId = Some g →
     let group_first :=
       fetchExpenses groupId expenses_outcome
         (fetchGroupData groupId current group_outcome initial_page) in
     let expenses_first :=
       fetchGroupData groupId current group_outcome
         (fetchExpenses groupId expenses_outcome initial_page) in
     page_state group_first = page_state expenses_first ∧
     render_view group_first = render_view expenses_first ∧
     render_view group_first ≠ LoadingScreen ∧
     (render_view group_first = DashboardView ↔
      ∃ response data,
        group_outcome = Returns response ∧
        response_error_message response = None ∧
        response_data response = Some data)).
Proof.
  split.
  - intros Hg. unfold fetchExpenses, fetchGroupData. by rewrite Hg.
  - intros g Hg. simpl.
    unfold render_view, fetchExpenses, fetchGroupData. rewrite Hg.
    destruct group_outcome as [[[data|] [message|]]|err],
             expenses_outcome as [entries|err']; simpl;
      (split_and!; [done|done|done|]);
      (split;
         [ first [done | intros _; do 2 eexists; by split_and!]
         | first [done | intros (r & d & Heq & Hm & Hd); by simplify_eq/=] ]).
Qed.

(** The store answers the group of A, B and C; the expenses fail to load. *)
Lemma mount_view_witness :
  render_view
    (fetchExpenses (Some "g1") (Throws PersistenceError)
       (fetchGroupData (Some "g1") None
          (Returns {| response_data := Some ABC;
                      response_error_message := None |})
          initial_page))
  ≠ LoadingScreen
  ∧ fetchExpenses None (Throws PersistenceError)
      (fetchGroupData None None (Throws PersistenceError) initial_page)
    = initial_page.
Proof.
  destruct (mount_view (Some "g1") None
              (Returns {| response_data := Some ABC;
                          response_error_message := None |})
              (Throws PersistenceError)) as [_ Hid].
  destruct (Hid "g1" eq_refl) as (_ & _ & Hgone & _).
  destruct (mount_view None None (Throws PersistenceError)
              (Throws PersistenceError)) as [Hnone _].
  destruct (Hnone eq_refl) as [Hsame _].
  split; [exact Hgone|exact Hsame].
Defined.

(** ** The participant kept for the session *)

Lemma participant_key_inj g g' : participant_key g = participant_key g' → g = g'.
Proof. unfold participant_key. apply (inj (String.app "participant_")). Qed.

(** X16. A participant chosen for a group is the current participant, and
    is restored from the session storage when the page of that group is
    opened again, whatever was current before, unless the identifier chosen
    is the empty string, which is stored and not restored. *)
Theorem participant_select_restore groupId g p storage current other :
  truthy groupId = Some g →
  snd (handleParticipantSelect groupId p (storage, current)) = Some p ∧
  fst (handleParticipantSelect groupId p (storage, current))
    !! participant_key g = Some p ∧
  restoreParticipant groupId
    (fst (handleParticipantSelect groupId p (storage, current))) other
  = if bool_decide (p = "") then other else Some p.
Proof.
  intros Hg. unfold handleParticipantSelect, restoreParticipant.
  rewrite Hg. simpl. rewrite lookup_insert_eq. simpl.
  split_and!; [done|done|]. by case_bool_decide.
Qed.

(** A chooses themselves in the group g1, where B was kept before. *)
Lemma participant_select_restore_witness :
  snd (handleParticipantSelect (Some "g1") "A"
         ({[participant_key "g1" := "B"]}, Some "B")) = Some "A" ∧
  fst (handleParticipantSelect (Some "g1") "A"
         ({[participant_key "g1" := "B"]}, Some "B"))
    !! participant_key "g1" = Some "A" ∧
  restoreParticipant (Some "g1")
    (fst (handleParticipantSelect (Some "g1") "A"
            ({[participant_key "g1" := "B"]}, Some "B"))) None
  = Some "A".
Proof.
  apply (participant_select_restore (Some "g1") "g1" "A"
           {[participant_key "g1" := "B"]} (Some "B") None).
  reflexivity.
Defined.

(** X17. Choosing a participant for one group changes what is restored for
    no other group; without a group identifier the choice changes nothing
    at all. *)
Theorem participant_select_other_group groupId g' p storage current other :
  groupId ≠ Some g' →
  restoreParticipant (Some g')
    (fst (handleParticipantSelect groupId p (storage, current))) other
  = restoreParticipant (Some g') storage other
  ∧ (truthy groupId = None →
     handleParticipantSelect groupId p (storage, current)
     = (storage, current)).
Proof.
  intros Hne. unfold handleParticipantSelect. split.
  - destruct (truthy groupId) as [g|] eqn:Hg; [|done].
    unfold restoreParticipant. cbn [fst].
    destruct (truthy (Some g')) as [k|] eqn:Hk; [|done].
    apply truthy_Some in Hk as [= <-]. apply truthy_Some in Hg as ->.
    rewrite lookup_insert_ne; [done|].
    intros Heq%participant_key_inj. by subst.
  - by intros ->.
Qed.

(** A chooses themselves in g1; B stays kept for g2. *)
Lemma participant_select_other_group_witness :
  restoreParticipant (Some "g2")
    (fst (handleParticipantSelect (Some "g1") "A"
            ({[participant_key "g2" := "B"]}, None))) None
  = restoreParticipant (Some "g2") {[participant_key "g2" := "B"]} None
  ∧ handleParticipantSelect None "A" ({[participant_key "g2" := "B"]}, None)
    = ({[participant_key "g2" := "B"]}, None).
Proof.
  destruct (participant_select_other_group (Some "g1") "g2" "A"
              {[participant_key "g2" := "B"]} None None) as [H1 _];
    [done|].
  destruct (participant_select_other_group None "g2" "A"
              {[participant_key "g2" := "B"]} None None) as [_ H2];
    [done|].
  split; [exact H1|by apply H2].
Defined.

(** ** The participant selection *)

(** X18. Loading the group never closes the participant selection; it
    opens it only when the callback was created without a current
    participant and the group just loaded has at least one participant. *)
Theorem fetchGroupData_selection groupId current outcome pg :
  (showParticipantSelection pg = true →
   showParticipantSelection (fetchGroupData groupId current outcome pg)
   = true) ∧
  (showParticipantSelection pg = false →
   showParticipantSelection (fetchGroupData groupId current outcome pg)
   = true →
   truthy current = None ∧
   ∃ data p ps,
     group (page_state (fetchGroupData groupId current outcome pg))
     = Some data ∧
     participants data = Some (p :: ps)).
Proof.
  unfold fetchGroupData.
  destruct (truthy groupId) as [g|]; [|by split; [|intros ->]].
  destruct outcome as [response|]; [|by split; [|intros ->]].
  destruct (response_error_message response) as [message|],
           (response_data response) as [data|]; simpl;
    try (by split; [|intros ->]).
  destruct (truthy current) as [c|]; [by split; [|intros ->]|].
  destruct (participants data) as [[|p ps]|] eqn:Hps;
    try (by split; [|intros ->]).
  split; [done|]. intros _ _. split; [done|]. by exists data, p, ps.
Qed.

(** The group of A, B and C loads while nobody is chosen. *)
Lemma fetchGroupData_selection_witness :
  truthy None = None ∧
  ∃ data p ps,
    group (page_state
             (fetchGroupData (Some "g1") None
                (Returns {| response_data := Some ABC;
                            response_error_message := None |})
                initial_page))
    = Some data ∧
    participants data = Some (p :: ps).
Proof.
  destruct (fetchGroupData_selection (Some "g1") None
              (Returns {| response_data := Some ABC;
                          response_error_message := None |})
              initial_page) as [_ Hopen].
  apply Hopen; reflexivity.
Defined.
